(** * whisperlisten: durable transcript queue, sender and VAD segmenter

    A shallow embedding of [src/queue.py], [src/sender.py], [src/vad.py],
    [src/transcribe.py] and the audio handler of [main.py] of the
    python-whisper-transcriber, with the properties of the specification
    stated over it.

    Modelling conventions.
    - The SQLite table [transcript_queue] has [id] as PRIMARY KEY, so it is a
      finite map from the id to the row: [gmap string QueueItem].
    - Timestamps are ISO-8601 texts produced by [datetime.now().isoformat()]
      and compared as texts by SQLite; they are modelled by the instant they
      denote, a rational number of seconds ([Q]) counted from [datetime.min].
      Every operation that reads the clock takes the reading as its argument
      [now].  Date arithmetic that leaves the range of [datetime] raises
      [OverflowError].
    - An exception raised by the store ([sqlite3.connect] or [execute]) is
      the flag [db_raises] of the queue; each method's [try/except] is the
      [match] on [connect].
    - JSON payloads (the error and response dictionaries) are kept as the
      text [json.dumps] gives. *)

From Stdlib Require Import ZArith QArith Qminmax Qpower Lqa Lia Sorted.
From stdpp Require Import gmap strings list fin_maps pretty.

(** ** queue.py *)

Module Queue.

Inductive Status := pending | sending | sent | failed_permanent.

#[export] Instance Status_eq_dec : EqDecision Status.
Proof. solve_decision. Defined.

Definition Json := string.

(** One row of [transcript_queue], with the columns of the CREATE TABLE. *)
Record QueueItem := mkItem {
  item_id : string;
  timestamp : Q;
  text : string;
  file_path : string;
  transcript_timestamp : string;
  status : Status;
  attempts : Z;
  last_attempt : option Q;
  last_error : option Json;
  next_retry : option Q;
  created_at : Q;
  sent_at : option Q;
  response : option Json
}.

(** The argument of [add_transcript]: the transcriber's record. *)
Record TranscriptData := mkData {
  data_text : string;
  data_file : string;
  data_timestamp : string
}.

(** [self] of [TranscriptQueue]: the retry configuration and the database. *)
Record TranscriptQueue := mkQueue {
  max_retries : Z;
  base_retry_delay : Z;
  max_retry_delay : Z;
  table : gmap string QueueItem;
  db_raises : bool
}.

Definition with_table (q : TranscriptQueue) (t : gmap string QueueItem) : TranscriptQueue :=
  {| max_retries := max_retries q;
     base_retry_delay := base_retry_delay q;
     max_retry_delay := max_retry_delay q;
     table := t;
     db_raises := db_raises q |}.

Definition with_fault (q : TranscriptQueue) (b : bool) : TranscriptQueue :=
  {| max_retries := max_retries q;
     base_retry_delay := base_retry_delay q;
     max_retry_delay := max_retry_delay q;
     table := table q;
     db_raises := b |}.

(** [with self.lock, sqlite3.connect(self.db_path) as conn]: the rows, or
    the exception. *)
Inductive Exc (A : Type) := Conn (a : A) | Raised.
Arguments Conn {A} a.
Arguments Raised {A}.

Definition connect (q : TranscriptQueue) : Exc (gmap string QueueItem) :=
  if db_raises q then Raised else Conn (table q).

(** [_init_database]: CREATE TABLE IF NOT EXISTS and the two CREATE INDEX
    IF NOT EXISTS.  [disk] is the table found in the database file, [None]
    when the file is new.  No row is read or written.  The result is [None]
    when the method re-raises. *)
Definition _init_database (raises : bool) (disk : option (gmap string QueueItem))
  : option (gmap string QueueItem) :=
  if raises then None
  else match disk with
       | Some rows => Some rows
       | None => Some ∅
       end.

(** [TranscriptQueue.__init__], with [config.get(key, default)]. *)
Record Config := mkConfig {
  cfg_max_retries : option Z;
  cfg_base_retry_delay : option Z;
  cfg_max_retry_delay : option Z
}.

Definition __init__ (config : Config) (raises : bool)
    (disk : option (gmap string QueueItem)) : option TranscriptQueue :=
  match _init_database raises disk with
  | None => None
  | Some rows =>
      Some {| max_retries := default 5%Z (cfg_max_retries config);
              base_retry_delay := default 1%Z (cfg_base_retry_delay config);
              max_retry_delay := default 300%Z (cfg_max_retry_delay config);
              table := rows;
              db_raises := raises |}
  end.

(** [add_transcript]: [new_id] is what [_generate_id] returned.  The INSERT
    raises on a taken primary key, and the method re-raises ([None]). *)
Definition add_transcript (q : TranscriptQueue) (now : Q) (new_id : string)
    (transcript_data : TranscriptData) : option QueueItem * TranscriptQueue :=
  let queue_item :=
    {| item_id := new_id;
       timestamp := now;
       text := data_text transcript_data;
       file_path := data_file transcript_data;
       transcript_timestamp := data_timestamp transcript_data;
       status := pending;
       attempts := 0;
       last_attempt := None;
       last_error := None;
       next_retry := None;
       created_at := now;
       sent_at := None;
       response := None |} in
  match connect q with
  | Raised => (None, q)
  | Conn rows =>
      match rows !! new_id with
      | Some _ => (None, q)
      | None => (Some queue_item, with_table q (<[new_id := queue_item]> rows))
      end
  end.

(** The rows of a SELECT, before ORDER BY. *)
Definition select (P : QueueItem → bool) (rows : gmap string QueueItem) : list QueueItem :=
  List.filter P (snd <$> map_to_list rows).

Definition is_status (s : Status) (it : QueueItem) : bool := bool_decide (status it = s).

(** ORDER BY created_at ASC LIMIT 1: the first row of least [created_at]. *)
Fixpoint oldest (l : list QueueItem) : option QueueItem :=
  match l with
  | [] => None
  | x :: l' =>
      match oldest l' with
      | None => Some x
      | Some y => if Qle_bool (created_at x) (created_at y) then Some x else Some y
      end
  end.

(** ORDER BY created_at ASC: a stable insertion sort. *)
Fixpoint insert_by_created (x : QueueItem) (l : list QueueItem) : list QueueItem :=
  match l with
  | [] => [x]
  | y :: l' =>
      if Qle_bool (created_at x) (created_at y) then x :: y :: l'
      else y :: insert_by_created x l'
  end.

Definition order_by_created (l : list QueueItem) : list QueueItem :=
  foldr insert_by_created [] l.

Definition get_next_pending (q : TranscriptQueue) : option QueueItem :=
  match connect q with
  | Raised => None
  | Conn rows => oldest (select (is_status pending) rows)
  end.

Definition get_all_pending (q : TranscriptQueue) : list QueueItem :=
  match connect q with
  | Raised => []
  | Conn rows => order_by_created (select (is_status pending) rows)
  end.

(** [next_retry IS NULL OR next_retry <= ?] *)
Definition retry_due (now : Q) (it : QueueItem) : bool :=
  match next_retry it with
  | None => true
  | Some t => Qle_bool t now
  end.

Definition retryable (max : Z) (now : Q) (it : QueueItem) : bool :=
  is_status pending it && (0 <? attempts it)%Z && (attempts it <? max)%Z && retry_due now it.

Definition get_retryable_items (q : TranscriptQueue) (now : Q) : list QueueItem :=
  match connect q with
  | Raised => []
  | Conn rows => order_by_created (select (retryable (max_retries q) now) rows)
  end.

(** The three UPDATE ... SET clauses, row by row. *)
Definition set_sending (now : Q) (it : QueueItem) : QueueItem :=
  {| item_id := item_id it; timestamp := timestamp it; text := text it;
     file_path := file_path it; transcript_timestamp := transcript_timestamp it;
     status := sending;
     attempts := attempts it + 1;
     last_attempt := Some now;
     last_error := last_error it; next_retry := next_retry it;
     created_at := created_at it; sent_at := sent_at it; response := response it |}.

Definition set_sent (now : Q) (response_json : option Json) (it : QueueItem) : QueueItem :=
  {| item_id := item_id it; timestamp := timestamp it; text := text it;
     file_path := file_path it; transcript_timestamp := transcript_timestamp it;
     status := sent;
     attempts := attempts it; last_attempt := last_attempt it;
     last_error := last_error it; next_retry := next_retry it;
     created_at := created_at it;
     sent_at := Some now;
     response := response_json |}.

Definition set_failed_permanent (error_json : option Json) (it : QueueItem) : QueueItem :=
  {| item_id := item_id it; timestamp := timestamp it; text := text it;
     file_path := file_path it; transcript_timestamp := transcript_timestamp it;
     status := failed_permanent;
     attempts := attempts it; last_attempt := last_attempt it;
     last_error := error_json;
     next_retry := next_retry it;
     created_at := created_at it; sent_at := sent_at it; response := response it |}.

Definition set_retry (error_json : option Json) (retry_at : Q) (it : QueueItem) : QueueItem :=
  {| item_id := item_id it; timestamp := timestamp it; text := text it;
     file_path := file_path it; transcript_timestamp := transcript_timestamp it;
     status := pending;
     attempts := attempts it; last_attempt := last_attempt it;
     last_error := error_json;
     next_retry := Some retry_at;
     created_at := created_at it; sent_at := sent_at it; response := response it |}.

Definition set_reset (it : QueueItem) : QueueItem :=
  {| item_id := item_id it; timestamp := timestamp it; text := text it;
     file_path := file_path it; transcript_timestamp := transcript_timestamp it;
     status := pending;
     attempts := 0;
     last_attempt := last_attempt it;
     last_error := None;
     next_retry := None;
     created_at := created_at it; sent_at := sent_at it; response := response it |}.

(** [mark_as_sending]: UPDATE ... WHERE id = ?, then [cursor.rowcount > 0]. *)
Definition mark_as_sending (q : TranscriptQueue) (now : Q) (id : string)
  : bool * TranscriptQueue :=
  match connect q with
  | Raised => (false, q)
  | Conn rows =>
      match rows !! id with
      | Some it => (true, with_table q (<[id := set_sending now it]> rows))
      | None => (false, q)
      end
  end.

Definition mark_as_sent (q : TranscriptQueue) (now : Q) (id : string)
    (response_json : option Json) : bool * TranscriptQueue :=
  match connect q with
  | Raised => (false, q)
  | Conn rows =>
      match rows !! id with
      | Some it => (true, with_table q (<[id := set_sent now response_json it]> rows))
      | None => (false, q)
      end
  end.

(** [min(self.base_retry_delay * (2 ** (attempts - 1)), self.max_retry_delay)];
    [2 ** (-1)] is [0.5] in Python, and the integers are unbounded. *)
Definition retry_delay (q : TranscriptQueue) (n : Z) : Q :=
  Qmin (inject_Z (base_retry_delay q) * 2 ^ (n - 1)) (inject_Z (max_retry_delay q)).

(** The range of [datetime]: from [datetime.min], 0001-01-01T00:00:00, the
    origin of the clock, to [datetime.max], 9999-12-31T23:59:59.999999,
    3652059 days later less one microsecond. *)
Definition datetime_max : Q := 315537897599999999 # 1000000.

Definition is_datetime (t : Q) : bool := Qle_bool 0 t && Qle_bool t datetime_max.

(** [mark_as_failed]: [datetime.now() + timedelta(seconds=delay)] is
    computed before the test on [attempts], inside the [try]; when it
    raises [OverflowError] the method returns [False] and nothing is
    written. *)
Definition mark_as_failed (q : TranscriptQueue) (now : Q) (id : string)
    (error_json : option Json) : bool * TranscriptQueue :=
  match connect q with
  | Raised => (false, q)
  | Conn rows =>
      match rows !! id with
      | None => (false, q)
      | Some it =>
          let n := attempts it in
          let delay := retry_delay q n in
          let retry_at := (now + delay)%Q in
          if negb (is_datetime retry_at) then (false, q)
          else if (max_retries q <=? n)%Z
          then (true, with_table q (<[id := set_failed_permanent error_json it]> rows))
          else (true, with_table q (<[id := set_retry error_json retry_at it]> rows))
      end
  end.

Definition reset_attempts (q : TranscriptQueue) (id : string) : bool * TranscriptQueue :=
  match connect q with
  | Raised => (false, q)
  | Conn rows =>
      match rows !! id with
      | Some it => (true, with_table q (<[id := set_reset it]> rows))
      | None => (false, q)
      end
  end.

(** [get_stats]: the dictionary with its five keys. *)
Record Stats := mkStats {
  n_pending : nat;
  n_sending : nat;
  n_sent : nat;
  n_failed_permanent : nat;
  n_total : nat
}.

Definition count_status (s : Status) (rows : gmap string QueueItem) : nat :=
  length (select (is_status s) rows).

Definition get_stats (q : TranscriptQueue) : Stats :=
  match connect q with
  | Raised => mkStats 0 0 0 0 0
  | Conn rows =>
      mkStats (count_status pending rows) (count_status sending rows)
              (count_status sent rows) (count_status failed_permanent rows)
              (count_status pending rows + count_status sending rows
               + count_status sent rows + count_status failed_permanent rows)
  end.

(** DELETE ... WHERE status = 'sent' AND sent_at < ?; a NULL [sent_at]
    compares to NULL and the row stays. *)
Definition expired (cutoff : Q) (it : QueueItem) : bool :=
  is_status sent it &&
  match sent_at it with
  | Some t => negb (Qle_bool cutoff t)
  | None => false
  end.

(** [cleanup_old_items]: the count removed, [None] when the method
    raises.  [datetime.now() - timedelta(days=days_old)] is computed before
    the [try], so its [OverflowError] reaches the caller. *)
Definition cleanup_old_items (q : TranscriptQueue) (now : Q) (days_old : Z)
  : option nat * TranscriptQueue :=
  let cutoff_date := (now - inject_Z (days_old * 86400))%Q in
  if negb (is_datetime cutoff_date) then (None, q)
  else
    match connect q with
    | Raised => (Some 0%nat, q)
    | Conn rows =>
        let kept := filter (λ kv, expired cutoff_date kv.2 = false) rows in
        (Some (size rows - size kept)%nat, with_table q kept)
    end.

Definition get_item (q : TranscriptQueue) (id : string) : option QueueItem :=
  match connect q with
  | Raised => None
  | Conn rows => rows !! id
  end.

(** Histories of the queue: the calls that write to the table, and the
    store starting or ceasing to raise between two calls. *)
Inductive Op :=
  | OpAdd (new_id : string) (transcript_data : TranscriptData)
  | OpMarkSending (id : string)
  | OpMarkSent (id : string) (response_json : option Json)
  | OpMarkFailed (id : string) (error_json : option Json)
  | OpReset (id : string)
  | OpCleanup (days_old : Z)
  | OpFault (raises : bool).

Definition step (q : TranscriptQueue) (now : Q) (op : Op) : TranscriptQueue :=
  match op with
  | OpAdd new_id d => (add_transcript q now new_id d).2
  | OpMarkSending id => (mark_as_sending q now id).2
  | OpMarkSent id r => (mark_as_sent q now id r).2
  | OpMarkFailed id e => (mark_as_failed q now id e).2
  | OpReset id => (reset_attempts q id).2
  | OpCleanup d => (cleanup_old_items q now d).2
  | OpFault b => with_fault q b
  end.

Definition run (q : TranscriptQueue) (h : list (Q * Op)) : TranscriptQueue :=
  foldl (λ q e, step q e.1 e.2) q h.

(** [allowed q op] restricts the calls a history may make in state [q]. *)
Inductive reachable_by (allowed : TranscriptQueue → Op → Prop) : TranscriptQueue → Prop :=
  | reach_new q : table q = ∅ → reachable_by allowed q
  | reach_step q now op :
      reachable_by allowed q → allowed q op → reachable_by allowed (step q now op).

Definition reachable : TranscriptQueue → Prop := reachable_by (λ _ _, True).

(** Histories in which [mark_as_sending] is called on an item that is
    pending at the time of the call (or on an id that is not there). *)
Definition sends_pending_only (q : TranscriptQueue) (op : Op) : Prop :=
  match op with
  | OpMarkSending id => ∀ it, table q !! id = Some it → status it = pending
  | _ => True
  end.

End Queue.

(** ** sender.py *)

Module Sender.
Import Queue.

(** [e.response] of a [requests.exceptions.HTTPError]: the status code and
    the truth value Python gives the object in [if e.response and ...].
    The class belongs to the requests library, which defines
    [Response.__bool__] as [ok], false for every status of 400 and above;
    the handler is modelled for both truth values. *)
Record Response := mkResponse {
  status_code : Z;
  truth : bool
}.

(** What [self.session.post] followed by [raise_for_status] gives. *)
Inductive PostOutcome :=
  | Success (response_data : Json)
  | ConnectionError (error_data : Json)
  | Timeout (error_data : Json)
  | HTTPError (e_response : option Response) (error_data : Json)
  | OtherException (error_data : Json).

(** [self] of [TranscriptSender]. *)
Record TranscriptSender := mkSender {
  queue : TranscriptQueue;
  api_url : option string;
  is_online : bool;
  max_concurrent_sends : Z;
  active_sends : Z
}.

Definition with_queue (s : TranscriptSender) (q : TranscriptQueue) : TranscriptSender :=
  {| queue := q; api_url := api_url s; is_online := is_online s;
     max_concurrent_sends := max_concurrent_sends s; active_sends := active_sends s |}.

Definition with_online (s : TranscriptSender) (b : bool) : TranscriptSender :=
  {| queue := queue s; api_url := api_url s; is_online := b;
     max_concurrent_sends := max_concurrent_sends s; active_sends := active_sends s |}.

(** [for _ in range(n): self.queue.mark_as_failed(item_id, error_data)] *)
Fixpoint mark_as_failed_times (n : nat) (q : TranscriptQueue) (now : Q) (id : string)
    (error_data : Json) : TranscriptQueue :=
  match n with
  | O => q
  | S n' => mark_as_failed_times n' (mark_as_failed q now id (Some error_data)).2 now id error_data
  end.

(** [if e.response and 400 <= e.response.status_code < 500] *)
Definition is_client_error (e_response : option Response) : bool :=
  match e_response with
  | Some r => truth r && (400 <=? status_code r)%Z && (status_code r <? 500)%Z
  | None => false
  end.

(** [bool(self.api_url)]: [None] and the empty string are false. *)
Definition url_set (u : option string) : bool :=
  match u with
  | Some u => negb (String.eqb u "")
  | None => false
  end.

(** [_send_transcript]: [t_send] is the clock at [mark_as_sending], [t_done]
    the clock when the outcome of the POST is recorded.  [if not
    self.api_url] returns for [None] and for the empty string. *)
Definition _send_transcript (s : TranscriptSender) (t_send t_done : Q)
    (item : QueueItem) (outcome : PostOutcome) : TranscriptSender :=
  if negb (url_set (api_url s)) then s
  else
    let id := item_id item in
    let '(ok, q1) := mark_as_sending (queue s) t_send id in
    if negb ok then s
    else
      match outcome with
      | Success response_data =>
          with_queue s (mark_as_sent q1 t_done id (Some response_data)).2
      | ConnectionError error_data =>
          with_queue (with_online s false)
                     (mark_as_failed q1 t_done id (Some error_data)).2
      | Timeout error_data =>
          with_queue s (mark_as_failed q1 t_done id (Some error_data)).2
      | HTTPError e_response error_data =>
          if is_client_error e_response
          then with_queue s
                 (mark_as_failed_times (Z.to_nat (max_retries q1)) q1 t_done id error_data)
          else with_queue s (mark_as_failed q1 t_done id (Some error_data)).2
      | OtherException error_data =>
          with_queue s (mark_as_failed q1 t_done id (Some error_data)).2
      end.

(** [_send_transcript_thread], run to its end: the counter is restored. *)
Definition _send_transcript_thread (s : TranscriptSender) (t_send t_done : Q)
    (item : QueueItem) (outcome : PostOutcome) : TranscriptSender :=
  _send_transcript s t_send t_done item outcome.

(** What the polling thread finds at its four reads of the state it
    shares with the send threads, which run while it polls: the counter
    [self.active_sends] at the test, the queue at [get_next_pending], the
    queue at [get_retryable_items], and the counter again at the slice. *)
Record Reads := mkReads {
  active_at_test : Z;
  queue_at_next : TranscriptQueue;
  queue_at_retry : TranscriptQueue;
  active_at_slice : Z
}.

(** The reads of a call during which no send thread runs. *)
Definition undisturbed (s : TranscriptSender) : Reads :=
  mkReads (active_sends s) (queue s) (queue s) (active_sends s).

(** [l[:n]]: a negative [n] counts from the end. *)
Definition slice_to {A : Type} (n : Z) (l : list A) : list A :=
  if (n <? 0)%Z then take (length l - Z.to_nat (- n)) l
  else take (Z.to_nat n) l.

(** [_process_pending_items] with the clock [now] of [get_retryable_items]:
    the items for which a send thread is started, in the order of the
    calls to [Thread.start]. *)
Definition _process_pending_items (s : TranscriptSender) (r : Reads) (now : Q)
  : list QueueItem :=
  if (max_concurrent_sends s <=? active_at_test r)%Z then []
  else
    let next_item := get_next_pending (queue_at_next r) in
    let retry_items := get_retryable_items (queue_at_retry r) now in
    option_list next_item
      ++ slice_to (max_concurrent_sends s - active_at_slice r) retry_items.

(** [force_send]: the dispatch thread is run to its end. *)
Definition force_send (s : TranscriptSender) (t_send t_done : Q) (id : string)
    (outcome : PostOutcome) : bool * TranscriptSender :=
  match get_item (queue s) id with
  | Some item =>
      if is_online s
      then (true, _send_transcript_thread s t_send t_done item outcome)
      else (false, s)
  | None => (false, s)
  end.

(** [retry_item] *)
Definition retry_item (s : TranscriptSender) (t_send t_done : Q) (id : string)
    (outcome : PostOutcome) : bool * TranscriptSender :=
  let '(ok, q1) := reset_attempts (queue s) id in
  if ok then
    let s1 := with_queue s q1 in
    if is_online s1 then
      match get_item q1 id with
      | Some item => (true, _send_transcript_thread s1 t_send t_done item outcome)
      | None => (true, s1)
      end
    else (true, s1)
  else (false, s).

(** [check_connectivity]: [dns_ok] tells whether [socket.create_connection]
    went through, [health] is the status of the GET on [/health], [None]
    when the request raises. *)
Definition check_connectivity (s : TranscriptSender) (dns_ok : bool)
    (health : option Z) : bool :=
  if dns_ok then
    if url_set (api_url s) then
      match health with
      | Some code => (code <? 400)%Z
      | None => false
      end
    else true
  else false.

(** One round of [_connectivity_loop]. *)
Definition _connectivity_loop (s : TranscriptSender) (dns_ok : bool)
    (health : option Z) : TranscriptSender :=
  with_online s (check_connectivity s dns_ok health).

(** Send threads for one item, run one after the other: each has the clock
    at [mark_as_sending], the clock at the outcome, and the outcome. *)
Definition send_each (s : TranscriptSender) (item : QueueItem)
    (sends : list (Q * Q * PostOutcome)) : TranscriptSender :=
  foldl (λ s e, _send_transcript_thread s e.1.1 e.1.2 item e.2) s sends.

(** One round of [_sender_loop]: the items for which it starts a send
    thread.  The round itself writes nothing to [self]; the threads do. *)
Definition _sender_loop (s : TranscriptSender) (r : Reads) (now : Q) : list QueueItem :=
  if is_online s && url_set (api_url s) then _process_pending_items s r now
  else [].

(** Whether the POST and [raise_for_status] went through without an
    exception. *)
Definition is_success (o : PostOutcome) : bool :=
  match o with Success _ => true | _ => false end.

End Sender.

(** ** vad.py *)

Module Vad.

(** One PCM frame read from the stream. *)
Definition Chunk := list Byte.byte.

(** [self] of [VAD], with the two things it acts on: the files of
    [temp_dir] and the paths handed to the [on_audio_ready] callback.
    [callback_set] tells whether [on_audio_ready] is not [None]. *)
Record VAD := mkVAD {
  chunk_duration_ms : Z;
  silence_chunks : nat;
  min_recording_duration_ms : Z;
  temp_dir : string;
  callback_set : bool;
  is_recording : bool;
  audio_counter : nat;
  current_audio_file : option string;
  recording_start_time : option Q;
  voice_buffer : list Chunk;
  audio_buffer : list Chunk;
  files : gmap string (list Chunk);
  delivered : list string
}.

Definition set_recording (b : bool) (file : option string) (v : VAD) : VAD :=
  {| chunk_duration_ms := chunk_duration_ms v;
     silence_chunks := silence_chunks v;
     min_recording_duration_ms := min_recording_duration_ms v;
     temp_dir := temp_dir v; callback_set := callback_set v;
     is_recording := b;
     audio_counter := audio_counter v;
     current_audio_file := file;
     recording_start_time := recording_start_time v;
     voice_buffer := voice_buffer v; audio_buffer := audio_buffer v;
     files := files v; delivered := delivered v |}.

Definition set_start (t : Q) (n : nat) (v : VAD) : VAD :=
  {| chunk_duration_ms := chunk_duration_ms v;
     silence_chunks := silence_chunks v;
     min_recording_duration_ms := min_recording_duration_ms v;
     temp_dir := temp_dir v; callback_set := callback_set v;
     is_recording := is_recording v;
     audio_counter := n;
     current_audio_file := current_audio_file v;
     recording_start_time := Some t;
     voice_buffer := voice_buffer v; audio_buffer := audio_buffer v;
     files := files v; delivered := delivered v |}.

Definition set_voice_buffer (b : list Chunk) (v : VAD) : VAD :=
  {| chunk_duration_ms := chunk_duration_ms v;
     silence_chunks := silence_chunks v;
     min_recording_duration_ms := min_recording_duration_ms v;
     temp_dir := temp_dir v; callback_set := callback_set v;
     is_recording := is_recording v; audio_counter := audio_counter v;
     current_audio_file := current_audio_file v;
     recording_start_time := recording_start_time v;
     voice_buffer := b;
     audio_buffer := audio_buffer v;
     files := files v; delivered := delivered v |}.

Definition set_audio_buffer (b : list Chunk) (v : VAD) : VAD :=
  {| chunk_duration_ms := chunk_duration_ms v;
     silence_chunks := silence_chunks v;
     min_recording_duration_ms := min_recording_duration_ms v;
     temp_dir := temp_dir v; callback_set := callback_set v;
     is_recording := is_recording v; audio_counter := audio_counter v;
     current_audio_file := current_audio_file v;
     recording_start_time := recording_start_time v;
     voice_buffer := voice_buffer v;
     audio_buffer := b;
     files := files v; delivered := delivered v |}.

Definition set_files (fs : gmap string (list Chunk)) (v : VAD) : VAD :=
  {| chunk_duration_ms := chunk_duration_ms v;
     silence_chunks := silence_chunks v;
     min_recording_duration_ms := min_recording_duration_ms v;
     temp_dir := temp_dir v; callback_set := callback_set v;
     is_recording := is_recording v; audio_counter := audio_counter v;
     current_audio_file := current_audio_file v;
     recording_start_time := recording_start_time v;
     voice_buffer := voice_buffer v; audio_buffer := audio_buffer v;
     files := fs;
     delivered := delivered v |}.

Definition set_delivered (d : list string) (v : VAD) : VAD :=
  {| chunk_duration_ms := chunk_duration_ms v;
     silence_chunks := silence_chunks v;
     min_recording_duration_ms := min_recording_duration_ms v;
     temp_dir := temp_dir v; callback_set := callback_set v;
     is_recording := is_recording v; audio_counter := audio_counter v;
     current_audio_file := current_audio_file v;
     recording_start_time := recording_start_time v;
     voice_buffer := voice_buffer v; audio_buffer := audio_buffer v;
     files := files v;
     delivered := d |}.

(** [VAD.__init__]: the buffers of a new detector;
    [silence_chunks = int(silence_duration_ms / chunk_duration_ms)].  A zero
    chunk duration and a negative [maxlen] raise ([None]). *)
Definition __init__ (silence_duration_ms chunk_ms min_ms : Z) (dir : string)
  : option VAD :=
  if (chunk_ms =? 0)%Z then None
  else
    let k := (silence_duration_ms ÷ chunk_ms)%Z in
    if (k <? 0)%Z then None
    else Some {| chunk_duration_ms := chunk_ms;
                 silence_chunks := Z.to_nat k;
                 min_recording_duration_ms := min_ms;
                 temp_dir := dir; callback_set := false;
                 is_recording := false; audio_counter := 0;
                 current_audio_file := None; recording_start_time := None;
                 voice_buffer := []; audio_buffer := [];
                 files := ∅; delivered := [] |}.

(** [deque(maxlen=k).append(x)]: with [k = 0] nothing is stored; a full
    deque drops its oldest element. *)
Definition deque_append (k : nat) (d : list Chunk) (x : Chunk) : list Chunk :=
  if (k =? 0)%nat then d
  else if (k <=? length d)%nat then tail d ++ [x]
  else d ++ [x].

(** [f"audio_{self.audio_counter:04d}.wav"] *)
Definition zfill4 (s : string) : string :=
  String.concat "" (replicate (4 - String.length s) "0"%string) +:+ s.

Fixpoint ends_with_sep (s : string) : bool :=
  match s with
  | EmptyString => false
  | String c s' =>
      match s' with
      | EmptyString => String.eqb (String c EmptyString) "/"
      | String _ _ => ends_with_sep s'
      end
  end.

(** [os.path.join(dir, name)] for a [name] that does not begin with the
    separator: no separator is added to an empty [dir] or to one that ends
    with it. *)
Definition path_join (dir name : string) : string :=
  if String.eqb dir "" || ends_with_sep dir then dir +:+ name
  else dir +:+ "/" +:+ name.

Definition audio_path (dir : string) (n : nat) : string :=
  path_join dir ("audio_" +:+ zfill4 (pretty n) +:+ ".wav").

Definition _start_recording (v : VAD) (now : Q) : VAD :=
  if is_recording v then v
  else
    let n := S (audio_counter v) in
    set_audio_buffer []
      (set_recording true (Some (audio_path (temp_dir v) n)) (set_start now n v)).

(** What becomes of the file during one step.  [write]: whether
    [wave.open] and the writes of [_save_audio_file] go through, and, when
    one of them raises, what the attempt leaves under the name ([None]
    when the file was not opened).  [remove_ok]: whether [os.remove] goes
    through. *)
Inductive WriteOutcome :=
  | Written
  | WriteFailed (residue : option (list Chunk)).

Record Disk := mkDisk {
  write : WriteOutcome;
  remove_ok : bool
}.

(** [_discard_recording]: [os.remove] when the file exists; a file that
    cannot be removed stays. *)
Definition _discard_recording (v : VAD) (remove_ok : bool) : VAD :=
  let v1 :=
    match current_audio_file v with
    | Some f => if remove_ok then set_files (delete f (files v)) v else v
    | None => v
    end in
  set_audio_buffer [] (set_recording false None v1).

(** [_save_audio_file]: when the write raises, the recording is
    discarded. *)
Definition _save_audio_file (v : VAD) (disk : Disk) : VAD :=
  match current_audio_file v with
  | None => v
  | Some f =>
      match audio_buffer v with
      | [] => v
      | _ :: _ =>
          match write disk with
          | Written => set_files (<[f := audio_buffer v]> (files v)) v
          | WriteFailed residue =>
              let v1 := match residue with
                        | Some partial => set_files (<[f := partial]> (files v)) v
                        | None => v
                        end in
              _discard_recording v1 (remove_ok disk)
          end
      end
  end.

Definition Qlt_bool (x y : Q) : bool := negb (Qle_bool y x).

(** The length of the audio held in the capture buffer, a frame lasting
    [chunk_duration_ms]. *)
Definition capture_duration_ms (v : VAD) : Z :=
  (Z.of_nat (length (audio_buffer v)) * chunk_duration_ms v)%Z.

(** [_stop_recording].  The flag of the result is true when the method
    raises: [os.path.basename(None)] after a failed save, or the
    subtraction from an unset start time. *)
Definition _stop_recording (v : VAD) (now : Q) (disk : Disk) : VAD * bool :=
  if negb (is_recording v) then (v, false)
  else
    match recording_start_time v with
    | None => (v, true)
    | Some t0 =>
        let recording_duration := ((now - t0) * 1000)%Q in
        if Qlt_bool recording_duration (inject_Z (min_recording_duration_ms v))
        then (_discard_recording v (remove_ok disk), false)
        else
          let v1 := _save_audio_file v disk in
          match current_audio_file v1 with
          | None => (v1, true)
          | Some f =>
              let v2 := if callback_set v1 then set_delivered (delivered v1 ++ [f]) v1
                        else v1 in
              (set_audio_buffer [] (set_recording false None v2), false)
          end
    end.

Section Classifier.

(** [self.vad.is_speech(audio_chunk, self.sample_rate)] of webrtcvad. *)
Variable is_speech : Chunk → bool.

Definition _process_audio_chunk (v : VAD) (now : Q) (disk : Disk)
    (audio_chunk : Chunk) : VAD * bool :=
  if is_speech audio_chunk then
    let v1 :=
      if negb (is_recording v) then
        let v' := _start_recording v now in
        set_audio_buffer (audio_buffer v' ++ voice_buffer v') v'
      else v in
    let v2 := set_audio_buffer (audio_buffer v1 ++ [audio_chunk]) v1 in
    (set_voice_buffer [] v2, false)
  else if is_recording v then
    let v1 := set_voice_buffer
                (deque_append (silence_chunks v) (voice_buffer v) audio_chunk) v in
    let v2 := set_audio_buffer (audio_buffer v1 ++ [audio_chunk]) v1 in
    if (silence_chunks v2 <=? length (voice_buffer v2))%nat
    then _stop_recording v2 now disk
    else (v2, false)
  else
    (set_voice_buffer
       (deque_append (silence_chunks v) (voice_buffer v) audio_chunk) v, false).

(** The frames of [_recording_loop], each with its clock reading and what
    becomes of the file; the loop ends at the first exception. *)
Fixpoint _recording_loop (v : VAD) (frames : list (Q * Disk * Chunk)) : VAD :=
  match frames with
  | [] => v
  | (now, disk, c) :: rest =>
      let '(v', raised) := _process_audio_chunk v now disk c in
      if raised then v' else _recording_loop v' rest
  end.

Definition set_callback (b : bool) (v : VAD) : VAD :=
  {| chunk_duration_ms := chunk_duration_ms v;
     silence_chunks := silence_chunks v;
     min_recording_duration_ms := min_recording_duration_ms v;
     temp_dir := temp_dir v;
     callback_set := b;
     is_recording := is_recording v; audio_counter := audio_counter v;
     current_audio_file := current_audio_file v;
     recording_start_time := recording_start_time v;
     voice_buffer := voice_buffer v; audio_buffer := audio_buffer v;
     files := files v; delivered := delivered v |}.

(** The states of a detector: created by [__init__], given its callback by
    the orchestrator, fed frames by [_recording_loop], and stopped by
    [stop], which finalizes the recording under way. *)
Inductive reachable : VAD → Prop :=
  | reach_init sil chunk_ms min_ms dir v :
      __init__ sil chunk_ms min_ms dir = Some v → reachable v
  | reach_callback b v : reachable v → reachable (set_callback b v)
  | reach_chunk v now disk c :
      reachable v → reachable (_process_audio_chunk v now disk c).1
  | reach_stop v now disk :
      reachable v → reachable (_stop_recording v now disk).1.

End Classifier.

End Vad.

(** ** transcribe.py *)

Module Transcribe.

(** The dictionary [transcribe_audio] returns. *)
Record TranscriptRecord := mkRecord {
  rec_text : string;
  rec_file : string;
  rec_timestamp : string;
  rec_duration : Q;
  rec_backend : string
}.

(** [self] of [Transcriber], with the files it writes: the transcripts
    and the counter file, by path.  [output_dir] is [str(self.output_dir)].
    [model_loaded] tells whether [whisper_model] is not [None]. *)
Record Transcriber := mkTranscriber {
  whisper_backend : string;
  model_loaded : bool;
  output_dir : string;
  transcript_counter : Z;
  texts : gmap string string
}.

Definition with_counter (t : Transcriber) (n : Z) (files : gmap string string)
  : Transcriber :=
  {| whisper_backend := whisper_backend t; model_loaded := model_loaded t;
     output_dir := output_dir t;
     transcript_counter := n;
     texts := files |}.

(** [self.output_dir / name] as a string. *)
Definition path_join (dir name : string) : string :=
  if String.eqb dir "." then name
  else if String.eqb dir "/" then "/" +:+ name
  else dir +:+ "/" +:+ name.

Definition counter_file (t : Transcriber) : string := path_join (output_dir t) ".counter".

Definition newline : string :=
  String (Ascii.Ascii false true false true false false false false) EmptyString.

Definition zfill (width : nat) (s : string) : string :=
  String.concat "" (replicate (width - String.length s) "0"%string) +:+ s.

(** [f"{n:04d}"]: the sign counts in the width. *)
Definition format_04d (n : Z) : string :=
  if (n <? 0)%Z then "-" +:+ zfill 3 (pretty (Z.abs_N n))
  else zfill 4 (pretty (Z.abs_N n)).

Definition is_backend (b : string) : bool :=
  String.eqb b "pywhispercpp" || String.eqb b "openai" || String.eqb b "faster-whisper".

(** [_init_whisper]: [loads b] tells whether the initialization of
    backend [b] goes through.  The result is the backend in use and
    whether a model is loaded; [None] when the fallback raises. *)
Definition _init_whisper (backend : string) (loads : string → bool)
  : option (string * bool) :=
  if is_backend backend && loads backend then Some (backend, true)
  else if negb (String.eqb backend "pywhispercpp") then
    if loads "pywhispercpp" then Some ("pywhispercpp"%string, true) else None
  else Some (backend, false).

Section Builtins.

(** [str.strip] and [int] of Python; [int] gives [None] when it raises. *)
Variable strip : string → string.
Variable int : string → option Z.

(** [_load_counter] *)
Definition _load_counter (t : Transcriber) : Transcriber :=
  match texts t !! counter_file t with
  | Some s =>
      match int (strip s) with
      | Some n => with_counter t n (texts t)
      | None => with_counter t 0 (texts t)
      end
  | None => t
  end.

(** [Transcriber.__init__] over the files found in [output_dir]. *)
Definition __init__ (backend dir : string) (loads : string → bool)
    (found : gmap string string) : option Transcriber :=
  let t := _load_counter (mkTranscriber backend false dir 0 found) in
  match _init_whisper backend loads with
  | Some (b, m) =>
      Some {| whisper_backend := b; model_loaded := m; output_dir := dir;
              transcript_counter := transcript_counter t; texts := texts t |}
  | None => None
  end.

(** What the surroundings give one call of [transcribe_audio]: the text of
    the backend ([None] when it raises; a result that is no string counts
    as the empty text when it is empty and as raising otherwise, since
    [text.strip()] raises on it), the two readings of
    [datetime.now().isoformat()], the elapsed time, and whether the write
    of the transcript, the write of the counter and the removal of the
    audio file go through. *)
Record Env := mkEnv {
  backend_text : option string;
  ts_file : string;
  ts_record : string;
  elapsed : Q;
  write_ok : bool;
  counter_ok : bool;
  remove_ok : bool
}.

(** [_save_counter] *)
Definition _save_counter (t : Transcriber) (ok : bool) : Transcriber :=
  if ok then with_counter t (transcript_counter t)
               (<[counter_file t := pretty (transcript_counter t)]> (texts t))
  else t.

(** [_save_transcript]: the path written, [None] when [write_text] raises;
    the counter is incremented before the write. *)
Definition _save_transcript (t : Transcriber) (env : Env) (text : string)
  : option string * Transcriber :=
  let n := (transcript_counter t + 1)%Z in
  let filepath := path_join (output_dir t) (format_04d n +:+ ".txt") in
  let content := ts_file env +:+ newline +:+ text +:+ newline in
  if write_ok env then
    (Some filepath,
     _save_counter (with_counter t n (<[filepath := content]> (texts t))) (counter_ok env))
  else (None, with_counter t n (texts t)).

(** [_cleanup_audio_file] *)
Definition _cleanup_audio_file (audio : gmap string (list Vad.Chunk)) (ok : bool)
    (path : string) : gmap string (list Vad.Chunk) :=
  match audio !! path with
  | Some _ => if ok then delete path audio else audio
  | None => audio
  end.

Inductive Result :=
  | Returned (r : option TranscriptRecord)
  | Raises.

(** [transcribe_audio] *)
Definition transcribe_audio (t : Transcriber) (audio : gmap string (list Vad.Chunk))
    (env : Env) (audio_file_path : string)
  : Result * Transcriber * gmap string (list Vad.Chunk) :=
  let cleaned := _cleanup_audio_file audio (remove_ok env) audio_file_path in
  match audio !! audio_file_path with
  | None => (Raises, t, cleaned)
  | Some _ =>
      if negb (is_backend (whisper_backend t)) then (Raises, t, cleaned)
      else
        match (if model_loaded t then backend_text env else None) with
        | None => (Raises, t, cleaned)
        | Some text =>
            if String.eqb text "" || String.eqb (strip text) ""
            then (Returned None, t, cleaned)
            else
              match _save_transcript t env (strip text) with
              | (Some file, t') =>
                  (Returned (Some {| rec_text := strip text;
                                     rec_file := file;
                                     rec_timestamp := ts_record env;
                                     rec_duration := elapsed env;
                                     rec_backend := whisper_backend t |}),
                   t', cleaned)
              | (None, t') => (Raises, t', cleaned)
              end
        end
  end.

(** [read_transcript] *)
Definition read_transcript (t : Transcriber) (filename : string) : option string :=
  texts t !! path_join (output_dir t) filename.

End Builtins.

End Transcribe.

(** ** main.py *)

Module Main.
Import Queue Transcribe.

(** [self] of [WhisperTranscriber]: the components used by
    [_process_audio] and the two counters of [self.stats]. *)
Record WhisperTranscriber := mkApp {
  transcriber : Transcriber;
  queue : TranscriptQueue;
  transcriptions : nat;
  errors : nat
}.

(** The keys [add_transcript] reads from the record. *)
Definition as_data (r : TranscriptRecord) : TranscriptData :=
  mkData (rec_text r) (rec_file r) (rec_timestamp r).

Section Builtins.

Variable strip : string → string.

(** [_process_audio]: [now] and [new_id] are the clock and the id drawn by
    [add_transcript]. *)
Definition _process_audio (app : WhisperTranscriber)
    (audio : gmap string (list Vad.Chunk)) (env : Env) (now : Q) (new_id : string)
    (audio_file : string) : WhisperTranscriber * gmap string (list Vad.Chunk) :=
  match transcribe_audio strip (transcriber app) audio env audio_file with
  | (Raises, t', audio') =>
      (mkApp t' (queue app) (transcriptions app) (S (errors app)), audio')
  | (Returned None, t', audio') =>
      (mkApp t' (queue app) (transcriptions app) (errors app), audio')
  | (Returned (Some r), t', audio') =>
      match add_transcript (queue app) now new_id (as_data r) with
      | (Some _, q') => (mkApp t' q' (S (transcriptions app)) (errors app), audio')
      | (None, q') => (mkApp t' q' (transcriptions app) (S (errors app)), audio')
      end
  end.

End Builtins.

End Main.

(** ** Concrete histories used below *)

Module Scenario.
Import Queue Sender.

(** The default configuration: [max_retries = 5], delays of 1 s to 300 s. *)
Definition q_new : TranscriptQueue := mkQueue 5 1 300 ∅ false.

Definition hello : TranscriptData := mkData "hello world" "0001.txt" "2024-05-01T10:00:00".

(** One transcript queued at time 100. *)
Definition q_added : TranscriptQueue := (add_transcript q_new 100 "a1b2c3d4" hello).2.

Definition the_item : QueueItem :=
  mkItem "a1b2c3d4" 100 "hello world" "0001.txt" "2024-05-01T10:00:00"
         pending 0 None None None 100 None None.

(** The item dispatched at 101 and acknowledged at 102: it is sent. *)
Definition q_sent : TranscriptQueue :=
  run q_added [(101%Q, OpMarkSending "a1b2c3d4"); (102%Q, OpMarkSent "a1b2c3d4" (Some "{}"%string))].

(** The item dispatched and failed once: pending, due again at 103. *)
Definition q_failed_once : TranscriptQueue :=
  run q_added [(101%Q, OpMarkSending "a1b2c3d4"); (102%Q, OpMarkFailed "a1b2c3d4" (Some "503"%string))].

(** Five dispatches, each failing one second later, at 110, 120, ..., 150. *)
Definition five_failures : list (Q * Op) :=
  [(110%Q, OpMarkSending "a1b2c3d4"); (111%Q, OpMarkFailed "a1b2c3d4" (Some "503"%string));
   (120%Q, OpMarkSending "a1b2c3d4"); (121%Q, OpMarkFailed "a1b2c3d4" (Some "503"%string));
   (130%Q, OpMarkSending "a1b2c3d4"); (131%Q, OpMarkFailed "a1b2c3d4" (Some "503"%string));
   (140%Q, OpMarkSending "a1b2c3d4"); (141%Q, OpMarkFailed "a1b2c3d4" (Some "503"%string));
   (150%Q, OpMarkSending "a1b2c3d4"); (151%Q, OpMarkFailed "a1b2c3d4" (Some "503"%string))].

Definition q_failed_permanent : TranscriptQueue := run q_added five_failures.

(** The item dispatched at 101, the answer still to come; the table as the
    database file holds it if the process dies now. *)
Definition q_sending : TranscriptQueue := step q_added 101%Q (OpMarkSending "a1b2c3d4").

Definition disk_sending : gmap string QueueItem := table q_sending.

(** Four failures and the fifth dispatch, at 150. *)
Definition q_last_attempt : TranscriptQueue := run q_added (take 9 five_failures).

(** A sender that is online, over a queue [q]. *)
Definition sender_over (q : TranscriptQueue) : TranscriptSender :=
  mkSender q (Some "http://api.example/transcripts"%string) true 3 0.

(** The row an operation leaves under the id, by its status, attempts and
    next retry. *)
Definition summary (q : TranscriptQueue) (id : string) : option (Status * Z * option Q) :=
  (λ it, (status it, attempts it, next_retry it)) <$> table q !! id.

End Scenario.

Module VadScenario.
Import Vad.
(** A classifier for the examples: a frame is speech when one of its bytes
    is not zero. *)
Definition energy (c : Chunk) : bool :=
  existsb (λ b, negb (Byte.eqb b Byte.x00)) c.

Definition loud : Chunk := [Byte.x10; Byte.x7f].
Definition quiet : Chunk := [Byte.x00; Byte.x00].

(** Frames of 30 ms, a silence timeout of 60 ms (two frames) and a minimum
    duration of 50 ms: what [__init__ 60 30 50] builds.  The orchestrator
    then sets the callback. *)
Definition vad_init : VAD :=
  mkVAD 30 2 50 "./data/temp" false false 0 None None [] [] ∅ [].

(** A step in which every write and removal goes through. *)
Definition disk_ok : Disk := mkDisk Written true.

Definition vad_new : VAD := set_callback true vad_init.

(** Speech at 1.00 s, then silence at 1.03 s and 1.06 s. *)
Definition vad_speaking : VAD := (_process_audio_chunk energy vad_new 1 disk_ok loud).1.

Definition vad_finalized : VAD :=
  _recording_loop energy vad_new
    [(1%Q, disk_ok, loud); ((103 # 100)%Q, disk_ok, quiet); ((106 # 100)%Q, disk_ok, quiet)].

(** The recording after its first frame of silence. *)
Definition vad_trailing : VAD :=
  (_process_audio_chunk energy vad_speaking (103 # 100) disk_ok quiet).1.

(** Speech again at 1.09 s. *)
Definition vad_second : VAD :=
  (_process_audio_chunk energy vad_finalized (109 # 100) disk_ok loud).1.

(** The same detector with a minimum duration of 150 ms: what
    [__init__ 60 30 150] builds, the callback set. *)
Definition vad_strict : VAD :=
  set_callback true (mkVAD 30 2 150 "./data/temp" false false 0 None None [] [] ∅ []).

(** Five frames read every 30 ms: two of silence, one of speech at 1.00 s,
    two of silence. *)
Definition steady_frames : list (Q * Disk * Chunk) :=
  [((94 # 100)%Q, disk_ok, quiet); ((97 # 100)%Q, disk_ok, quiet); (1%Q, disk_ok, loud);
   ((103 # 100)%Q, disk_ok, quiet); ((106 # 100)%Q, disk_ok, quiet)].

(** The recording of [steady_frames] when its last frame is read. *)
Definition vad_steady : VAD := _recording_loop energy vad_strict (take 4 steady_frames).

(** One frame of speech at 1.00 s and two of silence, read 90 ms apart. *)
Definition slow_frames : list (Q * Disk * Chunk) :=
  [(1%Q, disk_ok, loud); ((109 # 100)%Q, disk_ok, quiet); ((118 # 100)%Q, disk_ok, quiet)].
End VadScenario.

Module SenderScenario.
Import Queue Sender Scenario.

(** Five dispatches of one item, each failing in its own way. *)
Definition failed_sends : list (Q * Q * PostOutcome) :=
  [(110%Q, 111%Q, Timeout "timed out");
   (120%Q, 121%Q, HTTPError (Some (mkResponse 404 false)) "404 Not Found");
   (130%Q, 131%Q, ConnectionError "connection refused");
   (140%Q, 141%Q, HTTPError (Some (mkResponse 503 false)) "503 Service Unavailable");
   (150%Q, 151%Q, OtherException "invalid json")].
End SenderScenario.

Module TranscribeScenario.
Import Transcribe.

(** A [strip] for texts without blanks around them, and an [int] that
    reads the one numeral the scenario writes. *)
Definition keep (s : string) : string := s.
Definition read_one (s : string) : option Z :=
  if String.eqb s "1" then Some 1%Z else None.

(** A transcriber on an empty directory, one audio file, and a call in
    which the backend hears a word and every write goes through. *)
Definition fresh : Transcriber := mkTranscriber "openai" true "data/transcripts" 0 ∅.
Definition heard : gmap string (list Vad.Chunk) := {[ "a.wav"%string := [] ]}.
Definition spoken : Env := mkEnv (Some "hello"%string) "t1" "t2" 1 true true true.

(** The transcriber a restart over these files gives. *)
Definition restarted : Transcriber :=
  mkTranscriber "openai" true "data/transcripts" 1
    (texts (transcribe_audio keep fresh heard spoken "a.wav").1.2).
End TranscribeScenario.

(** * Properties *)

Import Queue Sender Scenario.

(** ** Reading through [connect] *)

Lemma connect_healthy (q : TranscriptQueue) :
  db_raises q = false → connect q = Conn (table q).
Proof. unfold connect. by intros ->. Qed.

Lemma connect_raising (q : TranscriptQueue) :
  db_raises q = true → connect q = Raised.
Proof. unfold connect. by intros ->. Qed.

Lemma oldest_elem (l : list QueueItem) (x : QueueItem) :
  oldest l = Some x → x ∈ l.
Proof.
  revert x. induction l as [|y l IH]; intros x; simpl; [done|].
  destruct (oldest l) as [z|] eqn:Hz.
  - destruct (Qle_bool (created_at y) (created_at z)); intros [= <-].
    + apply list_elem_of_here.
    + apply list_elem_of_further. by apply IH.
  - intros [= <-]. apply list_elem_of_here.
Qed.

Lemma oldest_none (l : list QueueItem) : oldest l = None ↔ l = [].
Proof.
  destruct l as [|y l]; simpl; [done|].
  split; [|done].
  destruct (oldest l); [destruct (Qle_bool _ _)|]; done.
Qed.

(** The row [oldest] gives is not younger than any row of the list. *)
Lemma oldest_least (l : list QueueItem) (x y : QueueItem) :
  oldest l = Some x → y ∈ l → (created_at x <= created_at y)%Q.
Proof.
  revert x. induction l as [|z l IH]; intros x; simpl; [intros _ Hy; inversion Hy|].
  destruct (oldest l) as [w|] eqn:Hw.
  - destruct (Qle_bool (created_at z) (created_at w)) eqn:Hle; intros [= <-] Hy.
    + apply Qle_bool_iff in Hle.
      apply elem_of_cons in Hy as [->|Hy]; [apply Qle_refl|].
      eapply Qle_trans; [exact Hle|]. by apply IH.
    + assert (created_at w < created_at z)%Q as Hlt.
      { apply Qnot_le_lt. intros H. apply Qle_bool_iff in H. congruence. }
      apply elem_of_cons in Hy as [->|Hy]; [by apply Qlt_le_weak|]. by apply IH.
  - intros [= <-] Hy. apply oldest_none in Hw. subst l.
    apply elem_of_cons in Hy as [->|Hy]; [apply Qle_refl|inversion Hy].
Qed.

Lemma insert_by_created_elem (x y : QueueItem) (l : list QueueItem) :
  y ∈ insert_by_created x l ↔ y = x ∨ y ∈ l.
Proof.
  induction l as [|z l IH]; simpl.
  - rewrite list_elem_of_singleton, elem_of_nil. tauto.
  - destruct (Qle_bool (created_at x) (created_at z)).
    + rewrite !elem_of_cons. tauto.
    + rewrite !elem_of_cons, IH. tauto.
Qed.

Lemma order_by_created_elem (y : QueueItem) (l : list QueueItem) :
  y ∈ order_by_created l ↔ y ∈ l.
Proof.
  unfold order_by_created. induction l as [|z l IH]; simpl; [done|].
  rewrite insert_by_created_elem, IH, elem_of_cons. tauto.
Qed.

Lemma select_elem (P : QueueItem → bool) (rows : gmap string QueueItem) (x : QueueItem) :
  x ∈ select P rows ↔ P x = true ∧ ∃ k, rows !! k = Some x.
Proof.
  unfold select. rewrite list_elem_of_In, filter_In, <- list_elem_of_In, list_elem_of_fmap.
  split.
  - intros [[[k v] [-> Hkv]] HP]. apply elem_of_map_to_list in Hkv. eauto.
  - intros [HP [k Hk]]. split; [|done]. exists (k, x). split; [done|].
    by apply elem_of_map_to_list.
Qed.

Lemma select_empty (P : QueueItem → bool) : select P ∅ = [].
Proof. unfold select. by rewrite map_to_list_empty. Qed.

(** What [get_next_pending] does return: a pending row, the oldest of the
    pending rows, whatever its [next_retry]. *)
Lemma get_next_pending_oldest_pending (q : TranscriptQueue) (x : QueueItem) :
  get_next_pending q = Some x →
  status x = pending
  ∧ (∃ k, table q !! k = Some x)
  ∧ ∀ k y, table q !! k = Some y → status y = pending → (created_at x <= created_at y)%Q.
Proof.
  unfold get_next_pending, connect. destruct (db_raises q); [done|]. intros Hx.
  pose proof (oldest_elem _ _ Hx) as Hin. apply select_elem in Hin as [Hp Hk].
  unfold is_status in Hp. apply bool_decide_eq_true in Hp.
  repeat split; [done..|].
  intros k y Hy Hs. eapply oldest_least; [exact Hx|].
  apply select_elem. split; [|eauto]. unfold is_status. by apply bool_decide_eq_true.
Qed.

(** It gives nothing only when no row is pending (or the store raises). *)
Lemma get_next_pending_none (q : TranscriptQueue) :
  db_raises q = false →
  get_next_pending q = None ↔ ∀ k it, table q !! k = Some it → status it ≠ pending.
Proof.
  intros Hh. unfold get_next_pending. rewrite (connect_healthy q Hh), oldest_none.
  split.
  - intros Hnil k it Hk Hs.
    assert (it ∈ select (is_status pending) (table q)) as Hin.
    { apply select_elem. split; [|eauto]. unfold is_status. by apply bool_decide_eq_true. }
    rewrite Hnil in Hin. by apply elem_of_nil in Hin.
  - intros Hno. apply elem_of_nil_inv. intros x Hx.
    apply select_elem in Hx as [Hp [k Hk]].
    unfold is_status in Hp. apply bool_decide_eq_true in Hp. by apply (Hno k x).
Qed.

(** ** Reads over a store that raises *)

(** C10. When the store raises during a read, [get_next_pending] returns
    [None], [get_retryable_items] returns the empty list and [get_stats]
    returns zero for every count; the three methods return a value in every
    case, and the values are those an empty queue gives. *)
Theorem failing_store_reads_as_empty (q : TranscriptQueue) (now : Q) :
  db_raises q = true →
  let empty := with_fault (with_table q ∅) false in
  get_next_pending q = None
  ∧ get_retryable_items q now = []
  ∧ get_stats q = mkStats 0 0 0 0 0
  ∧ get_next_pending q = get_next_pending empty
  ∧ get_retryable_items q now = get_retryable_items empty now
  ∧ get_stats q = get_stats empty.
Proof.
  intros Hr empty.
  unfold get_next_pending, get_retryable_items, get_stats.
  rewrite (connect_raising q Hr).
  assert (connect empty = Conn ∅) as -> by done.
  unfold count_status. rewrite !select_empty. done.
Qed.

Lemma failing_store_reads_as_empty_witness :
  db_raises (with_fault q_failed_once true) = true
  ∧ get_next_pending (with_fault q_failed_once true) = None
  ∧ get_retryable_items (with_fault q_failed_once true) 200 = []
  ∧ get_stats (with_fault q_failed_once true) = mkStats 0 0 0 0 0.
Proof.
  split; [reflexivity|].
  destruct (failing_store_reads_as_empty (with_fault q_failed_once true) 200 eq_refl)
    as (H1 & H2 & H3 & _).
  exact (conj H1 (conj H2 H3)).
Defined.

(** ** [mark_as_sending] *)

(** C6, as the code has it.  [mark_as_sending] takes an item in any status
    to [sending], adds one to its attempts and sets [last_attempt], leaving
    the other rows alone; the call is rejected, and nothing changes, when
    no row has the id. *)
Theorem mark_as_sending_any_status (q : TranscriptQueue) (now : Q) (id : string) :
  db_raises q = false →
  match table q !! id with
  | Some it =>
      ∃ q' it', mark_as_sending q now id = (true, q')
        ∧ table q' !! id = Some it'
        ∧ status it' = sending
        ∧ attempts it' = (attempts it + 1)%Z
        ∧ last_attempt it' = Some now
        ∧ ∀ j, j ≠ id → table q' !! j = table q !! j
  | None => mark_as_sending q now id = (false, q)
  end.
Proof.
  intros Hh. unfold mark_as_sending. rewrite (connect_healthy q Hh).
  destruct (table q !! id) as [it|] eqn:Hit; [|done].
  eexists _, _. split; [done|]. simpl.
  split; [apply lookup_insert_eq|].
  repeat split. intros j Hj. by rewrite lookup_insert_ne.
Qed.

Lemma mark_as_sending_any_status_witness :
  db_raises q_sent = false
  ∧ ∃ q' it', mark_as_sending q_sent 160 "a1b2c3d4" = (true, q')
      ∧ table q' !! "a1b2c3d4" = Some it'
      ∧ status it' = sending
      ∧ attempts it' = 2%Z
      ∧ last_attempt it' = Some 160%Q
      ∧ ∀ j, j ≠ "a1b2c3d4" → table q' !! j = table q_sent !! j.
Proof.
  split; [reflexivity|].
  exact (mark_as_sending_any_status q_sent 160 "a1b2c3d4" eq_refl).
Defined.

(** C6 as stated fails: the item of [q_sent] is not pending, and the call
    is accepted and changes it. *)
Lemma mark_as_sending_not_rejected :
  summary q_sent "a1b2c3d4" = Some (sent, 1%Z, None)
  ∧ (mark_as_sending q_sent 160 "a1b2c3d4").1 = true
  ∧ summary (mark_as_sending q_sent 160 "a1b2c3d4").2 "a1b2c3d4"
    = Some (sending, 2%Z, None).
Proof. vm_compute. done. Qed.

(** ** The sender's handling of an HTTP client error *)

(** [mark_as_failed] never writes the [attempts] column, so calling it
    again and again leaves the count where [mark_as_sending] put it. *)
Lemma mark_as_failed_attempts (q : TranscriptQueue) (now : Q) (id : string)
    (e : option Json) (k : string) :
  attempts <$> table (mark_as_failed q now id e).2 !! k = attempts <$> table q !! k.
Proof.
  unfold mark_as_failed. destruct (connect q) as [rows|] eqn:Hc; [|done].
  unfold connect in Hc. destruct (db_raises q); [done|]. injection Hc as <-.
  destruct (table q !! id) as [it|] eqn:Hit; [|done].
  destruct (negb (is_datetime _)); [done|].
  destruct (max_retries q <=? attempts it)%Z; simpl;
    (destruct (decide (id = k)) as [->|Hne];
     [rewrite lookup_insert_eq, Hit; done | by rewrite lookup_insert_ne]).
Qed.

Lemma mark_as_failed_times_attempts (n : nat) (q : TranscriptQueue) (now : Q)
    (id : string) (e : Json) (k : string) :
  attempts <$> table (mark_as_failed_times n q now id e) !! k = attempts <$> table q !! k.
Proof.
  revert q. induction n as [|n IH]; intros q; simpl; [done|].
  by rewrite IH, mark_as_failed_attempts.
Qed.

(** C1 at a 404.  The item of [q_added] is dispatched at 101 and the POST
    is answered 404 at 102.  Whether or not Python takes the response object
    for true, the item is left pending with one attempt and a retry due at
    103: it is again what [get_next_pending] returns, and at 103 it is among
    the retryable items. *)
Theorem client_error_left_pending :
  get_next_pending q_added = Some the_item
  ∧ ∀ b : bool,
      let s := _send_transcript (sender_over q_added) 101 102 the_item
                 (HTTPError (Some (mkResponse 404 b)) "404") in
      summary (queue s) "a1b2c3d4" = Some (pending, 1%Z, Some 103%Q)
      ∧ max_retries (queue s) = 5%Z
      ∧ item_id <$> get_next_pending (queue s) = Some "a1b2c3d4"%string
      ∧ item_id <$> get_retryable_items (queue s) 103 = ["a1b2c3d4"%string].
Proof. split; [by vm_compute|]. intros [|]; vm_compute; done. Qed.

(** ** [get_next_pending] and the retry time *)

(** C3 at the item of [q_failed_once].  It failed at 102 and is due again
    at 103; [get_next_pending], which reads no clock, returns it, also at
    102.5 when it is not due and [get_retryable_items] leaves it out; the
    polling loop starts a send for it at 102.5. *)
Theorem next_pending_returns_item_not_due :
  (status <$> get_next_pending q_failed_once = Some pending)
  ∧ (next_retry <$> get_next_pending q_failed_once = Some (Some 103%Q))
  ∧ (retry_due (205 # 2) <$> get_next_pending q_failed_once = Some false)
  ∧ get_retryable_items q_failed_once (205 # 2) = []
  ∧ item_id <$> _process_pending_items (sender_over q_failed_once)
                  (undisturbed (sender_over q_failed_once)) (205 # 2)
    = ["a1b2c3d4"%string].
Proof. vm_compute. done. Qed.

(** ** Histories: what a step does to a row *)

Lemma step_max_retries (q : TranscriptQueue) (now : Q) (op : Op) :
  max_retries (step q now op) = max_retries q.
Proof.
  destruct op; simpl; try done;
    unfold add_transcript, mark_as_sending, mark_as_sent, mark_as_failed,
      reset_attempts, cleanup_old_items;
    try (destruct (negb (is_datetime _)); simpl; [done|]);
    destruct (connect q); simpl; try done;
    try (destruct (_ !! _); simpl; try done).
  destruct (negb (is_datetime _)); simpl; [done|].
  destruct (_ <=? _)%Z; done.
Qed.

(** What a step leaves under a key, from what was there. *)
Lemma step_row (q : TranscriptQueue) (now : Q) (op : Op) (k : string) (it' : QueueItem) :
  table (step q now op) !! k = Some it' →
  table q !! k = Some it'
  ∨ (table q !! k = None ∧ status it' = pending ∧ attempts it' = 0%Z)
  ∨ ∃ it, table q !! k = Some it ∧
      ( (op = OpMarkSending k ∧ it' = set_sending now it)
      ∨ (∃ r, op = OpMarkSent k r ∧ it' = set_sent now r it)
      ∨ (∃ e, op = OpMarkFailed k e ∧ (max_retries q <= attempts it)%Z
              ∧ it' = set_failed_permanent e it)
      ∨ (∃ e, op = OpMarkFailed k e ∧ (attempts it < max_retries q)%Z
              ∧ it' = set_retry e (now + retry_delay q (attempts it)) it)
      ∨ (op = OpReset k ∧ it' = set_reset it)).
Proof.
  destruct op as [i d|i|i r|i e|i|d|b]; simpl;
    unfold add_transcript, mark_as_sending, mark_as_sent, mark_as_failed,
      reset_attempts, cleanup_old_items, connect;
    try (destruct (negb (is_datetime _)); simpl; [by auto|]);
    destruct (db_raises q); simpl; auto.
  - destruct (table q !! i) as [it0|] eqn:Hi; simpl; auto.
    destruct (decide (i = k)) as [->|Hne].
    + rewrite lookup_insert_eq. intros [= <-]. auto.
    + rewrite lookup_insert_ne by done. auto.
  - destruct (table q !! i) as [it0|] eqn:Hi; simpl; auto.
    destruct (decide (i = k)) as [->|Hne].
    + rewrite lookup_insert_eq. intros [= <-]. right; right. eauto 10.
    + rewrite lookup_insert_ne by done. auto.
  - destruct (table q !! i) as [it0|] eqn:Hi; simpl; auto.
    destruct (decide (i = k)) as [->|Hne].
    + rewrite lookup_insert_eq. intros [= <-]. right; right. eauto 10.
    + rewrite lookup_insert_ne by done. auto.
  - destruct (table q !! i) as [it0|] eqn:Hi; simpl; auto.
    destruct (negb (is_datetime _)); simpl; auto.
    destruct (Z.leb_spec (max_retries q) (attempts it0)); simpl;
      (destruct (decide (i = k)) as [->|Hne];
       [rewrite lookup_insert_eq; intros [= <-]; right; right; eauto 12
       |rewrite lookup_insert_ne by done; auto]).
  - destruct (table q !! i) as [it0|] eqn:Hi; simpl; auto.
    destruct (decide (i = k)) as [->|Hne].
    + rewrite lookup_insert_eq. intros [= <-]. right; right. eauto 10.
    + rewrite lookup_insert_ne by done. auto.
  - intros H. apply map_lookup_filter_Some in H as [H _]. auto.
Qed.

(** An item is [failed_permanent] only with its retries used up. *)
Lemma failed_permanent_attempts (q : TranscriptQueue) (k : string) (it : QueueItem) :
  reachable q → table q !! k = Some it → status it = failed_permanent →
  (max_retries q <= attempts it)%Z.
Proof.
  intros Hq. revert k it.
  induction Hq as [q Hempty|q now op Hq IH _]; intros k it' Hk Hs.
  - rewrite Hempty, lookup_empty in Hk. done.
  - rewrite step_max_retries.
    destruct (step_row _ _ _ _ _ Hk) as [Hold|[(_ & Hp & _)|(it & Hit & Hcase)]].
    + eauto.
    + congruence.
    + destruct Hcase as [[_ ->]|[(r & _ & ->)|[(e & _ & Hle & ->)|[(e & _ & _ & ->)|[_ ->]]]]];
        simpl in *; try done.
Qed.

(** ** Terminal statuses *)

(** C2, as the code has it.  In a history of the queue, an item that is
    [sent] or [failed_permanent] keeps its status under [add_transcript],
    under a change of the store's health, under any call addressed to
    another id, under [mark_as_sent] when it is [sent] and under
    [mark_as_failed] when it is [failed_permanent]; [cleanup_old_items]
    leaves it as it is or deletes it, and deletes only a [sent] item. *)
Theorem terminal_status_kept (q : TranscriptQueue) (now : Q) (op : Op)
    (k : string) (it : QueueItem) :
  reachable q →
  table q !! k = Some it →
  status it = sent ∨ status it = failed_permanent →
  match op with
  | OpMarkSending i | OpReset i => i ≠ k
  | OpMarkSent i _ => i ≠ k ∨ status it = sent
  | OpMarkFailed i _ => i ≠ k ∨ status it = failed_permanent
  | OpAdd _ _ | OpCleanup _ | OpFault _ => True
  end →
  match table (step q now op) !! k with
  | Some it' => status it' = status it
  | None => status it = sent ∧ ∃ d, op = OpCleanup d
  end.
Proof.
  intros Hq Hk Hterm Hop.
  destruct (table (step q now op) !! k) as [it'|] eqn:Hk'.
  - destruct (step_row _ _ _ _ _ Hk') as [Hold|[(Hnone & _)|(it0 & Hit & Hcase)]].
    + congruence.
    + congruence.
    + assert (it0 = it) as -> by congruence.
      destruct Hcase as [[-> ->]|[(r & -> & ->)|[(e & -> & Hle & ->)|[(e & -> & Hlt & ->)|[-> ->]]]]];
        simpl in *; try done.
      * destruct Hop as [?|Hs]; [done|]. congruence.
      * destruct Hop as [?|Hs]; [done|]. congruence.
      * destruct Hop as [?|Hs]; [done|].
        pose proof (failed_permanent_attempts q k it Hq Hk Hs). lia.
  - revert Hk'. destruct op as [i d|i|i r|i e|i|d|b]; simpl;
      unfold add_transcript, mark_as_sending, mark_as_sent, mark_as_failed,
        reset_attempts, cleanup_old_items, connect;
      try (destruct (negb (is_datetime _)); simpl; [congruence|]);
      destruct (db_raises q); simpl; try congruence.
    + destruct (table q !! i); simpl; [congruence|].
      intros H. apply lookup_insert_None in H as [H _]. congruence.
    + destruct (table q !! i); simpl; [|congruence].
      intros H. apply lookup_insert_None in H as [H _]. congruence.
    + destruct (table q !! i); simpl; [|congruence].
      intros H. apply lookup_insert_None in H as [H _]. congruence.
    + destruct (table q !! i); simpl; [|congruence].
      destruct (negb (is_datetime _)); simpl; [congruence|].
      destruct (_ <=? _)%Z; simpl;
      intros H; apply lookup_insert_None in H as [H _]; congruence.
    + destruct (table q !! i); simpl; [|congruence].
      intros H. apply lookup_insert_None in H as [H _]. congruence.
    + intros H. apply map_lookup_filter_None in H as [H|H]; [congruence|].
      split; [|eauto].
      specialize (H it Hk). simpl in H.
      destruct (expired _ it) eqn:He; [|done].
      unfold expired, is_status in He. apply andb_true_iff in He as [He _].
      by apply bool_decide_eq_true in He.
Qed.

Lemma q_sent_reachable : reachable q_sent.
Proof.
  change q_sent with
    (step (step (step q_new 100 (OpAdd "a1b2c3d4" hello)) 101 (OpMarkSending "a1b2c3d4"))
          102 (OpMarkSent "a1b2c3d4" (Some "{}"%string))).
  repeat (apply reach_step; [|exact I]). by apply reach_new.
Defined.

Lemma terminal_status_kept_witness :
  table q_sent !! "a1b2c3d4"
    = Some (set_sent 102 (Some "{}"%string) (set_sending 101 the_item))
  ∧ match table (step q_sent 200 (OpMarkSent "a1b2c3d4" None)) !! "a1b2c3d4" with
    | Some it' => status it' = sent
    | None => True
    end.
Proof.
  assert (table q_sent !! "a1b2c3d4"
          = Some (set_sent 102 (Some "{}"%string) (set_sending 101 the_item))) as H
    by (vm_compute; reflexivity).
  split; [exact H|].
  pose proof (terminal_status_kept q_sent 200 (OpMarkSent "a1b2c3d4" None) "a1b2c3d4" _
                q_sent_reachable H (or_introl eq_refl) (or_intror eq_refl)) as K.
  destruct (table (step q_sent 200 (OpMarkSent "a1b2c3d4" None)) !! "a1b2c3d4");
    [exact K|exact I].
Defined.

(** C2 as stated fails: no operation looks at the status it overwrites.
    The sent item of [q_sent] goes to [sending] under [mark_as_sending] and
    to [pending] under [mark_as_failed]; the item of [q_failed_permanent]
    goes to [sent] under [mark_as_sent]. *)
Lemma terminal_status_overwritten :
  summary q_sent "a1b2c3d4" = Some (sent, 1%Z, None)
  ∧ summary (step q_sent 160 (OpMarkSending "a1b2c3d4")) "a1b2c3d4"
    = Some (sending, 2%Z, None)
  ∧ summary (step q_sent 160 (OpMarkFailed "a1b2c3d4" None)) "a1b2c3d4"
    = Some (pending, 1%Z, Some 161%Q)
  ∧ summary q_failed_permanent "a1b2c3d4" = Some (failed_permanent, 5%Z, Some 149%Q)
  ∧ summary (step q_failed_permanent 160 (OpMarkSent "a1b2c3d4" None)) "a1b2c3d4"
    = Some (sent, 5%Z, Some 149%Q).
Proof. vm_compute. done. Qed.

(** ** The bound on attempts *)

Lemma attempts_bounded_all (q : TranscriptQueue) :
  reachable_by sends_pending_only q → (1 <= max_retries q)%Z →
  ∀ k it, table q !! k = Some it →
    (attempts it <= max_retries q)%Z
    ∧ (status it = pending → (attempts it < max_retries q)%Z).
Proof.
  induction 1 as [q Hempty|q now op Hq IH Hop]; intros Hmax k it' Hk.
  - rewrite Hempty, lookup_empty in Hk. done.
  - rewrite step_max_retries in *.
    destruct (step_row _ _ _ _ _ Hk) as [Hold|[(_ & Hp & Ha)|(it & Hit & Hcase)]].
    + eauto.
    + rewrite Ha. lia.
    + destruct (IH Hmax k it Hit) as [Hle Hlt].
      destruct Hcase as [[-> ->]|[(r & _ & ->)|[(e & _ & Hge & ->)|[(e & _ & Hl & ->)|[_ ->]]]]];
        simpl in *; try (split; [lia|done || lia]).
      specialize (Hop it Hit). specialize (Hlt Hop). split; [lia|done].
Qed.

(** C4, as the code has it.  With [max_retries] at least 1, in every
    state of a history in which [mark_as_sending] is only called on
    pending items, every item whose status is not [failed_permanent] has
    at most [max_retries] attempts. *)
Theorem attempts_bounded_when_sending_pending_only (q : TranscriptQueue)
    (k : string) (it : QueueItem) :
  reachable_by sends_pending_only q →
  (1 <= max_retries q)%Z →
  table q !! k = Some it →
  status it ≠ failed_permanent →
  (attempts it <= max_retries q)%Z.
Proof. intros Hq Hmax Hk _. by apply (attempts_bounded_all q Hq Hmax k it). Qed.

Lemma q_failed_once_reachable : reachable_by sends_pending_only q_failed_once.
Proof.
  change q_failed_once with
    (step (step (step q_new 100 (OpAdd "a1b2c3d4" hello)) 101 (OpMarkSending "a1b2c3d4"))
          102 (OpMarkFailed "a1b2c3d4" (Some "503"%string))).
  apply reach_step; [apply reach_step; [apply reach_step; [by apply reach_new|exact I]|]|exact I].
  intros it Hit. vm_compute in Hit. by injection Hit as <-.
Defined.

Lemma attempts_bounded_when_sending_pending_only_witness :
  (1 <= max_retries q_failed_once)%Z
  ∧ table q_failed_once !! "a1b2c3d4" = Some (set_retry (Some "503"%string) 103 (set_sending 101 the_item))
  ∧ (attempts (set_retry (Some "503"%string) 103 (set_sending 101 the_item)) <= max_retries q_failed_once)%Z.
Proof.
  assert (1 <= max_retries q_failed_once)%Z as H1 by (vm_compute; discriminate).
  assert (table q_failed_once !! "a1b2c3d4"
          = Some (set_retry (Some "503"%string) 103 (set_sending 101 the_item))) as H2
    by (vm_compute; reflexivity).
  split; [exact H1|]. split; [exact H2|].
  apply (attempts_bounded_when_sending_pending_only q_failed_once "a1b2c3d4" _
           q_failed_once_reachable H1 H2).
  simpl. discriminate.
Defined.

(** C4 as stated fails: [force_send] dispatches the permanently failed
    item of [q_failed_permanent]; [mark_as_sending] takes it to [sending]
    with 6 attempts, and the 200 answer leaves it [sent] with 6 attempts,
    under [max_retries = 5]. *)
Lemma attempts_exceed_after_force_send :
  summary q_failed_permanent "a1b2c3d4" = Some (failed_permanent, 5%Z, Some 149%Q)
  ∧ (force_send (sender_over q_failed_permanent) 160 161 "a1b2c3d4" (Success "{}")).1 = true
  ∧ summary (queue (force_send (sender_over q_failed_permanent) 160 161 "a1b2c3d4"
                      (Success "{}")).2) "a1b2c3d4"
    = Some (sent, 6%Z, Some 149%Q)
  ∧ summary (mark_as_sending q_failed_permanent 160 "a1b2c3d4").2 "a1b2c3d4"
    = Some (sending, 6%Z, Some 149%Q)
  ∧ max_retries (queue (force_send (sender_over q_failed_permanent) 160 161 "a1b2c3d4"
                      (Success "{}")).2) = 5%Z.
Proof. vm_compute. done. Qed.

(** ** Backoff *)

(** [2 ** k] on a non-negative integer [k] is the integer power. *)
Lemma two_power_Q (k : Z) : (0 <= k)%Z → (2 ^ k == inject_Z (2 ^ k))%Q.
Proof. intros Hk. symmetry. exact (Zpower_Qpower 2 k Hk). Qed.

Lemma retry_delay_first (q : TranscriptQueue) :
  (base_retry_delay q <= max_retry_delay q)%Z →
  (retry_delay q 1 == inject_Z (base_retry_delay q))%Q.
Proof.
  intros Hle. unfold retry_delay. simpl Z.sub.
  assert ((inject_Z (base_retry_delay q) * 2 ^ 0 == inject_Z (base_retry_delay q))%Q) as E.
  { simpl. ring. }
  rewrite E. apply Q.min_l. by rewrite <- Zle_Qle.
Qed.

Lemma retry_delay_capped (q : TranscriptQueue) (n : Z) :
  (1 <= base_retry_delay q)%Z → (1 <= n)%Z → (max_retry_delay q <= n)%Z →
  (retry_delay q n == inject_Z (max_retry_delay q))%Q.
Proof.
  intros Hb Hn Hmax. unfold retry_delay.
  apply Q.min_r.
  rewrite (two_power_Q (n - 1)) by lia.
  rewrite <- inject_Z_mult. rewrite <- Zle_Qle.
  pose proof (Z.pow_gt_lin_r 2 (n - 1) ltac:(lia) ltac:(lia)).
  nia.
Qed.

(** C5, as the code has it.  For an item with [n >= 1] attempts,
    [mark_as_failed] computes the delay
    [min(base_retry_delay * 2^(n-1), max_retry_delay)] on unbounded numbers.
    When [now + delay] is a date [datetime] can hold, the call returns
    [True] and leaves the attempts as they are: with [n < max_retries] the
    item becomes [pending] with [next_retry = now + delay]; with
    [n >= max_retries] it becomes [failed_permanent] and [next_retry] is
    left as it was.  When [now + delay] is outside that range, the
    [OverflowError] is caught: the call returns [False] and the queue is as
    before.  The delay is [base_retry_delay] at [n = 1] when the base does
    not exceed the cap, and it is [max_retry_delay] for every [n] from
    [max_retry_delay] on when the base is at least 1. *)
Theorem mark_as_failed_backoff (q : TranscriptQueue) (now : Q) (id : string)
    (e : option Json) (it : QueueItem) :
  db_raises q = false →
  table q !! id = Some it →
  (1 <= attempts it)%Z →
  let n := attempts it in
  let delay := Qmin (inject_Z (base_retry_delay q) * 2 ^ (n - 1))
                    (inject_Z (max_retry_delay q)) in
  (is_datetime (now + delay) = true →
     (mark_as_failed q now id e).1 = true
     ∧ ∃ it', table (mark_as_failed q now id e).2 !! id = Some it'
         ∧ attempts it' = n
         ∧ ((n < max_retries q)%Z →
              status it' = pending ∧ next_retry it' = Some (now + delay)%Q)
         ∧ ((max_retries q <= n)%Z →
              status it' = failed_permanent ∧ next_retry it' = next_retry it))
  ∧ (is_datetime (now + delay) = false → mark_as_failed q now id e = (false, q))
  ∧ (n = 1%Z → (base_retry_delay q <= max_retry_delay q)%Z →
       (delay == inject_Z (base_retry_delay q))%Q)
  ∧ ((1 <= base_retry_delay q)%Z → (max_retry_delay q <= n)%Z →
       (delay == inject_Z (max_retry_delay q))%Q).
Proof.
  intros Hh Hit Hn n delay.
  unfold mark_as_failed. rewrite (connect_healthy q Hh), Hit. fold n.
  unfold retry_delay. fold delay.
  split; [|split; [|split]].
  - intros ->. simpl.
    destruct (Z.leb_spec (max_retries q) n) as [Hge|Hlt]; simpl;
      (split; [reflexivity|]);
      rewrite lookup_insert_eq; eexists; (split; [reflexivity|]); simpl;
      (split; [reflexivity|]);
      (split; intros ?; try lia; done).
  - by intros ->.
  - intros Hn1 Hle. subst delay. rewrite Hn1. by apply retry_delay_first.
  - intros Hb Hmax. by apply retry_delay_capped.
Qed.

Lemma mark_as_failed_backoff_witness :
  db_raises q_sending = false
  ∧ table q_sending !! "a1b2c3d4" = Some (set_sending 101 the_item)
  ∧ (1 <= attempts (set_sending 101 the_item))%Z
  ∧ is_datetime (102 + Qmin (inject_Z 1 * 2 ^ (1 - 1)) (inject_Z 300)) = true
  ∧ ∃ it', table (mark_as_failed q_sending 102 "a1b2c3d4" None).2 !! "a1b2c3d4" = Some it'
      ∧ attempts it' = 1%Z
      ∧ status it' = pending
      ∧ next_retry it' = Some (102 + Qmin (inject_Z 1 * 2 ^ (1 - 1)) (inject_Z 300))%Q.
Proof.
  assert (table q_sending !! "a1b2c3d4" = Some (set_sending 101 the_item)) as H2
    by (vm_compute; reflexivity).
  assert (1 <= attempts (set_sending 101 the_item))%Z as H3 by (simpl; lia).
  assert (is_datetime (102 + Qmin (inject_Z 1 * 2 ^ (1 - 1)) (inject_Z 300)) = true) as H4
    by (vm_compute; reflexivity).
  split; [reflexivity|]. split; [exact H2|]. split; [exact H3|]. split; [exact H4|].
  destruct (mark_as_failed_backoff q_sending 102 "a1b2c3d4" None _ eq_refl H2 H3)
    as (Hin & _).
  destruct (Hin H4) as (_ & it' & Hit' & Ha & Hp & _).
  exists it'. split; [exact Hit'|]. split; [exact Ha|].
  apply Hp. vm_compute. reflexivity.
Defined.

(** C5 as stated fails at [n = max_retries]: the fifth failure, at 151,
    leaves [next_retry] at 149, the value of the fourth failure, and not at
    151 + 16 = 167. *)
Lemma permanent_failure_keeps_next_retry :
  summary q_last_attempt "a1b2c3d4" = Some (sending, 5%Z, Some 149%Q)
  ∧ max_retries q_last_attempt = 5%Z
  ∧ summary (mark_as_failed q_last_attempt 151 "a1b2c3d4" (Some "503"%string)).2 "a1b2c3d4"
    = Some (failed_permanent, 5%Z, Some 149%Q)
  ∧ (151 + retry_delay q_last_attempt 5 == 167)%Q
  ∧ ¬ (149 == 167)%Q.
Proof. vm_compute. repeat split; done. Qed.

(** ** Start-up *)

(** C7, as the code has it.  Initialization leaves the persisted rows as
    they are: an item found in [sending] is still in [sending], and neither
    [get_next_pending] nor [get_retryable_items] returns it. *)
Theorem startup_leaves_rows (config : Config) (rows : gmap string QueueItem) :
  ∃ q, __init__ config false (Some rows) = Some q
    ∧ table q = rows
    ∧ ∀ k it, rows !! k = Some it → status it = sending →
        table q !! k = Some it
        ∧ get_next_pending q ≠ Some it
        ∧ ∀ now, it ∉ get_retryable_items q now.
Proof.
  eexists. split; [reflexivity|]. split; [reflexivity|].
  intros k it Hk Hs. split; [exact Hk|]. split.
  - intros Hn. apply get_next_pending_oldest_pending in Hn as [Hp _]. congruence.
  - intros now Hin. unfold get_retryable_items in Hin. simpl in Hin.
    apply order_by_created_elem, select_elem in Hin as [Hr _].
    unfold retryable, is_status in Hr.
    repeat (apply andb_true_iff in Hr as [Hr _]).
    apply bool_decide_eq_true in Hr. congruence.
Qed.

(** C7 as stated fails: the table left by a process that died during a
    send still has its item in [sending] after [__init__], and the two
    dispatch queries return nothing. *)
Lemma startup_keeps_sending :
  (status <$> disk_sending !! "a1b2c3d4" = Some sending)
  ∧ ∃ q, __init__ (mkConfig None None None) false (Some disk_sending) = Some q
      ∧ (status <$> table q !! "a1b2c3d4" = Some sending)
      ∧ get_stats q = mkStats 0 1 0 0 1
      ∧ get_next_pending q = None
      ∧ get_retryable_items q 1000 = [].
Proof. split; [by vm_compute|]. eexists. split; [reflexivity|]. vm_compute. done. Qed.

(** ** The segmenter *)

Section VadProperties.
Import Vad VadScenario.

Lemma vad_init_built : Vad.__init__ 60 30 50 "./data/temp" = Some vad_init.
Proof. reflexivity. Qed.

Lemma init_not_recording (sil chunk_ms min_ms : Z) (dir : string) (v : VAD) :
  Vad.__init__ sil chunk_ms min_ms dir = Some v → is_recording v = false.
Proof.
  unfold Vad.__init__. destruct (chunk_ms =? 0)%Z; [done|].
  destruct (_ <? 0)%Z; [done|]. by intros [= <-].
Qed.

(** [_stop_recording] on a recording with its start time, its file name and
    at least one frame. *)
Lemma stop_recording_cases (v : VAD) (now t0 : Q) (f : string) (d : Disk) :
  is_recording v = true →
  recording_start_time v = Some t0 →
  current_audio_file v = Some f →
  audio_buffer v ≠ [] →
  _stop_recording v now d =
    if Qlt_bool ((now - t0) * 1000) (inject_Z (min_recording_duration_ms v))
    then (_discard_recording v (remove_ok d), false)
    else
      match write d with
      | Written =>
          let v1 := set_files (<[f := audio_buffer v]> (files v)) v in
          let v2 := if callback_set v then set_delivered (delivered v ++ [f]) v1 else v1 in
          (set_audio_buffer [] (set_recording false None v2), false)
      | WriteFailed residue =>
          (_discard_recording
             match residue with
             | Some partial => set_files (<[f := partial]> (files v)) v
             | None => v
             end (remove_ok d), true)
      end.
Proof.
  intros Hr Ht Hf Hb. unfold _stop_recording. rewrite Hr, Ht. simpl.
  destruct (Qlt_bool _ _); [done|].
  unfold _save_audio_file. rewrite Hf.
  destruct (audio_buffer v) as [|c l] eqn:Hbuf; [done|].
  destruct (write d) as [|residue]; simpl; [by rewrite Hf|done].
Qed.

(** [_discard_recording] writes to [files] only. *)
Lemma discard_recording_frame (v : VAD) (b : bool) :
  is_recording (_discard_recording v b) = false
  ∧ current_audio_file (_discard_recording v b) = None
  ∧ audio_buffer (_discard_recording v b) = []
  ∧ voice_buffer (_discard_recording v b) = voice_buffer v
  ∧ delivered (_discard_recording v b) = delivered v
  ∧ audio_counter (_discard_recording v b) = audio_counter v
  ∧ silence_chunks (_discard_recording v b) = silence_chunks v
  ∧ temp_dir (_discard_recording v b) = temp_dir v.
Proof.
  unfold _discard_recording. destruct (current_audio_file v); [destruct b|]; done.
Qed.

Lemma recording_well_formed (is_speech : Chunk → bool) (v : VAD) :
  reachable is_speech v →
  is_recording v = true →
  is_Some (recording_start_time v) ∧ is_Some (current_audio_file v) ∧ audio_buffer v ≠ [].
Proof.
  induction 1 as [sil chunk_ms min_ms dir v Hinit|b v Hv IH|v now w c Hv IH|v now w Hv IH].
  - rewrite (init_not_recording _ _ _ _ _ Hinit). done.
  - exact IH.
  - unfold _process_audio_chunk.
    destruct (is_speech c).
    + simpl. intros _.
      destruct (is_recording v) eqn:Hr; simpl.
      * destruct (IH eq_refl) as (Hs & Hf & _). repeat split; [done..|].
        by destruct (audio_buffer v).
      * unfold _start_recording. rewrite Hr. simpl. repeat split; eauto.
        by destruct (voice_buffer v).
    + destruct (is_recording v) eqn:Hr; [|simpl; congruence].
      destruct (IH eq_refl) as ([t0 Ht] & [f Hf] & Hb).
      destruct (_ <=? _)%nat; simpl.
      * erewrite stop_recording_cases; simpl; eauto; [|by destruct (audio_buffer v)].
        destruct (Qlt_bool _ _); [done|]. destruct (write w); simpl; [|done].
        destruct (callback_set v); done.
      * intros _. repeat split; eauto. by destruct (audio_buffer v).
  - destruct (is_recording v) eqn:Hr.
    + destruct (IH eq_refl) as ([t0 Ht] & [f Hf] & Hb).
      erewrite stop_recording_cases; eauto.
      destruct (Qlt_bool _ _); [done|]. destruct (write w); simpl; [|done].
      destruct (callback_set v); done.
    + unfold _stop_recording. rewrite Hr. simpl. congruence.
Qed.

Lemma deque_append_last (k : nat) (d : list Chunk) (c : Chunk) :
  (0 < k)%nat → last (deque_append k d c) = Some c.
Proof.
  intros Hk. unfold deque_append.
  destruct (Nat.eqb_spec k 0) as [->|_]; [lia|].
  destruct (k <=? length d)%nat; apply last_snoc.
Qed.

(** C8, as the code has it.  When a frame of silence completes the
    trailing silence of a recording, the step leaves the detector idle with
    an empty capture buffer, whatever becomes of the file; the pre-roll
    buffer is not emptied: it holds the frames of trailing silence, the
    last of them the frame just read. *)
Theorem finalize_keeps_preroll (is_speech : Chunk → bool) (v : VAD) (now : Q)
    (disk : Disk) (c : Chunk) :
  reachable is_speech v →
  is_recording v = true →
  is_speech c = false →
  (silence_chunks v <= length (deque_append (silence_chunks v) (voice_buffer v) c))%nat →
  let v' := (_process_audio_chunk is_speech v now disk c).1 in
  is_recording v' = false
  ∧ audio_buffer v' = []
  ∧ voice_buffer v' = deque_append (silence_chunks v) (voice_buffer v) c
  ∧ ((0 < silence_chunks v)%nat → last (voice_buffer v') = Some c).
Proof.
  intros Hv Hr Hc Hfull v'.
  destruct (recording_well_formed is_speech v Hv Hr) as ([t0 Ht] & [f Hf] & Hb).
  assert (voice_buffer v' = deque_append (silence_chunks v) (voice_buffer v) c
          ∧ is_recording v' = false ∧ audio_buffer v' = []) as (Hvb & Hrec & Hab).
  { subst v'. unfold _process_audio_chunk. rewrite Hc, Hr. simpl.
    apply Nat.leb_le in Hfull. rewrite Hfull.
    erewrite stop_recording_cases; simpl; eauto; [|by destruct (audio_buffer v)].
    unfold _discard_recording; simpl; rewrite ?Hf; simpl.
    destruct (Qlt_bool _ _); simpl; [by destruct (remove_ok disk)|].
    destruct (write disk) as [|[partial|]]; simpl;
      [destruct (callback_set v); done|..];
      rewrite ?Hf; by destruct (remove_ok disk). }
  repeat split; [done..|].
  intros Hk. rewrite Hvb. by apply deque_append_last.
Qed.

Lemma vad_speaking_reachable : reachable energy vad_speaking.
Proof.
  apply reach_chunk, reach_callback.
  by apply (reach_init energy 60 30 50 "./data/temp").
Defined.

Lemma finalize_keeps_preroll_witness :
  is_recording vad_trailing = true
  ∧ energy quiet = false
  ∧ (silence_chunks vad_trailing
     <= length (deque_append (silence_chunks vad_trailing) (voice_buffer vad_trailing) quiet))%nat
  ∧ is_recording (_process_audio_chunk energy vad_trailing (106 # 100) disk_ok quiet).1 = false
  ∧ audio_buffer (_process_audio_chunk energy vad_trailing (106 # 100) disk_ok quiet).1 = []
  ∧ voice_buffer (_process_audio_chunk energy vad_trailing (106 # 100) disk_ok quiet).1
    = [quiet; quiet].
Proof.
  assert (silence_chunks vad_trailing
          <= length (deque_append (silence_chunks vad_trailing)
                       (voice_buffer vad_trailing) quiet))%nat as Hfull
    by (vm_compute; lia).
  split; [reflexivity|]. split; [reflexivity|]. split; [exact Hfull|].
  destruct (finalize_keeps_preroll energy vad_trailing (106 # 100) disk_ok quiet
              (reach_chunk energy _ _ _ _ vad_speaking_reachable)
              eq_refl eq_refl Hfull) as (H1 & H2 & H3 & _).
  split; [exact H1|]. split; [exact H2|exact H3].
Defined.

(** C8 as stated fails: after the utterance [loud; quiet; quiet] is
    finalized and handed to the callback, the pre-roll buffer holds its two
    frames of silence, and they open the capture of the next utterance. *)
Lemma preroll_kept_after_finalize :
  delivered vad_finalized = ["./data/temp/audio_0001.wav"%string]
  ∧ files vad_finalized !! "./data/temp/audio_0001.wav" = Some [loud; quiet; quiet]
  ∧ is_recording vad_finalized = false
  ∧ audio_buffer vad_finalized = []
  ∧ voice_buffer vad_finalized = [quiet; quiet]
  ∧ audio_buffer vad_second = [quiet; quiet; loud].
Proof. vm_compute. done. Qed.

(** C9, as the code has it.  The test of [_stop_recording] is on the time
    of the clock between [_start_recording] and the stop, not on the length
    of the capture.  A recording stopped when that time is
    [min_recording_duration_ms - 1] is discarded: the callback is not
    called, and no file is left under its name when the removal goes
    through, while the files are as they were when it does not.  Stopped
    when that time is exactly [min_recording_duration_ms], with the
    callback set and the write going through, its frames are written under
    its name and the callback receives that name once. *)
Theorem min_duration_boundary (v : VAD) (now t0 : Q) (f : string) :
  is_recording v = true →
  recording_start_time v = Some t0 →
  current_audio_file v = Some f →
  (((now - t0) * 1000 == inject_Z (min_recording_duration_ms v) - 1)%Q →
     ∀ disk,
       let r := _stop_recording v now disk in
       (remove_ok disk = true → files r.1 !! f = None)
       ∧ (remove_ok disk = false → files r.1 = files v)
       ∧ delivered r.1 = delivered v
       ∧ is_recording r.1 = false
       ∧ r.2 = false)
  ∧ (((now - t0) * 1000 == inject_Z (min_recording_duration_ms v))%Q →
     callback_set v = true →
     audio_buffer v ≠ [] →
     ∀ removes,
       let r := _stop_recording v now (mkDisk Written removes) in
       files r.1 !! f = Some (audio_buffer v)
       ∧ delivered r.1 = delivered v ++ [f]
       ∧ is_recording r.1 = false
       ∧ current_audio_file r.1 = None
       ∧ r.2 = false).
Proof.
  intros Hr Ht Hf. split.
  - intros Hd w r. subst r. unfold _stop_recording. rewrite Hr, Ht. simpl.
    assert (Qlt_bool ((now - t0) * 1000) (inject_Z (min_recording_duration_ms v)) = true)
      as ->.
    { unfold Qlt_bool. apply negb_true_iff.
      destruct (Qle_bool _ _) eqn:Hle; [|done].
      apply Qle_bool_iff in Hle. lra. }
    simpl. unfold _discard_recording. rewrite Hf.
    destruct (remove_ok w); simpl; repeat split; try done.
    intros _. by rewrite lookup_delete_eq.
  - intros Hd Hcb Hb removes r. subst r.
    rewrite (stop_recording_cases v now t0 f _ Hr Ht Hf Hb).
    assert (Qlt_bool ((now - t0) * 1000) (inject_Z (min_recording_duration_ms v)) = false)
      as ->.
    { unfold Qlt_bool. apply negb_false_iff. apply Qle_bool_iff. lra. }
    simpl. rewrite Hcb. simpl. by rewrite lookup_insert_eq.
Qed.

Lemma min_duration_boundary_witness :
  is_recording vad_speaking = true
  ∧ recording_start_time vad_speaking = Some 1%Q
  ∧ current_audio_file vad_speaking = Some "./data/temp/audio_0001.wav"%string
  ∧ min_recording_duration_ms vad_speaking = 50%Z
  ∧ (files (_stop_recording vad_speaking (1049 # 1000) disk_ok).1
       !! "./data/temp/audio_0001.wav" = None
     ∧ delivered (_stop_recording vad_speaking (1049 # 1000) disk_ok).1 = [])
  ∧ (files (_stop_recording vad_speaking (1050 # 1000) disk_ok).1
       !! "./data/temp/audio_0001.wav" = Some [loud]
     ∧ delivered (_stop_recording vad_speaking (1050 # 1000) disk_ok).1
       = ["./data/temp/audio_0001.wav"%string]).
Proof.
  split; [reflexivity|]. split; [reflexivity|]. split; [reflexivity|].
  split; [reflexivity|]. split.
  - destruct (min_duration_boundary vad_speaking (1049 # 1000) 1
                "./data/temp/audio_0001.wav" eq_refl eq_refl eq_refl) as [Hshort _].
    destruct (Hshort ltac:(vm_compute; reflexivity) disk_ok) as (H1 & _ & H2 & _).
    split; [exact (H1 eq_refl)|exact H2].
  - destruct (min_duration_boundary vad_speaking (1050 # 1000) 1
                "./data/temp/audio_0001.wav" eq_refl eq_refl eq_refl) as [_ Hexact].
    destruct (Hexact ltac:(vm_compute; reflexivity) eq_refl ltac:(discriminate) true)
      as (H1 & H2 & _).
    split; [exact H1|exact H2].
Defined.

(** C9 as stated fails, whether the duration of a segment is the length of
    its speech or of all its audio.  Read every 30 ms by [vad_new], whose
    minimum is 50 ms, one frame of speech and two of silence are written
    and handed to the callback: the speech lasts 30 ms, but 60 ms have
    passed when the silence ends it.  Read every 30 ms by [vad_strict],
    whose minimum is 150 ms, the frames of [steady_frames] make a capture
    of five frames, 150 ms; it is discarded, 60 ms having passed since the
    frame of speech.  Read 90 ms apart, the frames of [slow_frames] make a
    capture of three frames, 90 ms; it is written and handed to the
    callback, 180 ms having passed. *)
Lemma capture_length_not_tested :
  (min_recording_duration_ms vad_new = 50%Z
   ∧ files vad_finalized !! "./data/temp/audio_0001.wav" = Some [loud; quiet; quiet]
   ∧ delivered vad_finalized = ["./data/temp/audio_0001.wav"%string]
   ∧ filter (λ c, energy c = true) [loud; quiet; quiet] = [loud]
   ∧ (Z.of_nat (length [loud]) * chunk_duration_ms vad_new
      < min_recording_duration_ms vad_new - 1)%Z)
  ∧ (is_recording vad_steady = true
     ∧ audio_buffer vad_steady ++ [quiet] = [quiet; quiet; loud; quiet; quiet]
     ∧ capture_duration_ms (set_audio_buffer (audio_buffer vad_steady ++ [quiet]) vad_steady)
       = min_recording_duration_ms vad_strict
     ∧ files (_recording_loop energy vad_strict steady_frames) = ∅
     ∧ delivered (_recording_loop energy vad_strict steady_frames) = []
     ∧ is_recording (_recording_loop energy vad_strict steady_frames) = false)
  ∧ (files (_recording_loop energy vad_strict slow_frames) !! "./data/temp/audio_0001.wav"
     = Some [loud; quiet; quiet]
     ∧ delivered (_recording_loop energy vad_strict slow_frames)
       = ["./data/temp/audio_0001.wav"%string]
     ∧ (Z.of_nat (length [loud; quiet; quiet]) * chunk_duration_ms vad_strict
        < min_recording_duration_ms vad_strict - 1)%Z).
Proof. vm_compute. done. Qed.

End VadProperties.

(** * Further properties of the code *)

Import SenderScenario.

(** ** The queue *)

(** X1.  On a store that answers, [add_transcript] under a free id returns
    the new item, and [get_item] then returns that same item: pending, with
    no attempt, created at the time of the call, carrying the transcript's
    text, file and timestamp; the table has one row more and the other
    rows are as before.  Under a taken id the INSERT raises and the queue
    is unchanged. *)
Theorem add_transcript_then_get_item (q : TranscriptQueue) (now : Q) (id : string)
    (d : TranscriptData) :
  db_raises q = false →
  match table q !! id with
  | None =>
      ∃ it q', add_transcript q now id d = (Some it, q')
        ∧ get_item q' id = Some it
        ∧ item_id it = id ∧ text it = data_text d ∧ file_path it = data_file d
        ∧ transcript_timestamp it = data_timestamp d
        ∧ status it = pending ∧ attempts it = 0%Z
        ∧ created_at it = now ∧ next_retry it = None
        ∧ size (table q') = S (size (table q))
        ∧ ∀ j, j ≠ id → get_item q' j = get_item q j
  | Some _ => add_transcript q now id d = (None, q)
  end.
Proof.
  intros Hh. unfold add_transcript. rewrite (connect_healthy q Hh).
  destruct (table q !! id) as [old|] eqn:Hid; [done|].
  eexists _, _. split; [reflexivity|].
  unfold get_item, connect. simpl. rewrite Hh.
  split; [apply lookup_insert_eq|]. repeat split.
  - by apply map_size_insert_None.
  - intros j Hj. by rewrite lookup_insert_ne.
Qed.

Lemma add_transcript_then_get_item_witness :
  db_raises q_new = false
  ∧ ∃ it q', add_transcript q_new 100 "a1b2c3d4" hello = (Some it, q')
      ∧ get_item q' "a1b2c3d4" = Some it
      ∧ status it = pending ∧ attempts it = 0%Z.
Proof.
  split; [reflexivity|].
  destruct (add_transcript_then_get_item q_new 100 "a1b2c3d4" hello eq_refl)
    as (it & q' & H1 & H2 & _ & _ & _ & _ & H3 & H4 & _).
  exists it, q'. repeat split; assumption.
Defined.

(** X2.  [reset_attempts] twice leaves the queue as one reset does.  A
    reset item is pending with no attempt, no error and no retry time; it
    keeps [sent_at], [response] and [last_attempt]; it is due at every time
    and is no retryable item, so only [get_next_pending] can hand it out. *)
Theorem reset_attempts_idempotent (q : TranscriptQueue) (id : string) :
  (reset_attempts (reset_attempts q id).2 id).2 = (reset_attempts q id).2
  ∧ ∀ it, db_raises q = false → table q !! id = Some it →
      ∃ it', get_item (reset_attempts q id).2 id = Some it'
        ∧ status it' = pending ∧ attempts it' = 0%Z
        ∧ last_error it' = None ∧ next_retry it' = None
        ∧ sent_at it' = sent_at it ∧ response it' = response it
        ∧ last_attempt it' = last_attempt it
        ∧ ∀ now, retry_due now it' = true
                 ∧ it' ∉ get_retryable_items (reset_attempts q id).2 now.
Proof.
  split.
  - unfold reset_attempts, connect.
    destruct (db_raises q) eqn:Hr; simpl; [by rewrite Hr|].
    destruct (table q !! id) as [it|] eqn:Hit; simpl; rewrite Hr; simpl.
    + rewrite lookup_insert_eq. simpl. unfold with_table. simpl.
      by rewrite insert_insert_eq.
    + by rewrite Hit.
  - intros it Hr Hit. unfold reset_attempts, get_item, get_retryable_items, connect.
    rewrite Hr, Hit. simpl. rewrite Hr. rewrite lookup_insert_eq.
    eexists. split; [reflexivity|]. simpl. repeat split.
    intros Hin. apply order_by_created_elem, select_elem in Hin as [Hret _].
    unfold retryable in Hret. rewrite !andb_true_iff in Hret.
    destruct Hret as [[[_ H0] _] _]. done.
Qed.

Lemma count_by_status (l : list QueueItem) :
  (length (List.filter (is_status pending) l) + length (List.filter (is_status sending) l)
   + length (List.filter (is_status sent) l)
   + length (List.filter (is_status failed_permanent) l))%nat = length l.
Proof.
  induction l as [|x l IH]; [done|].
  unfold is_status in *. simpl. destruct (status x); simpl; lia.
Qed.

(** X3.  On a store that answers, the total of [get_stats] is the number
    of rows, the four counts add up to it, and the pending count is zero
    exactly when [get_next_pending] returns nothing. *)
Theorem get_stats_total (q : TranscriptQueue) :
  db_raises q = false →
  n_total (get_stats q) = size (table q)
  ∧ (n_pending (get_stats q) + n_sending (get_stats q) + n_sent (get_stats q)
     + n_failed_permanent (get_stats q))%nat = size (table q)
  ∧ (n_pending (get_stats q) = 0%nat ↔ get_next_pending q = None).
Proof.
  intros Hh. unfold get_stats, get_next_pending. rewrite (connect_healthy q Hh). simpl.
  unfold count_status, select. rewrite count_by_status, length_fmap, length_map_to_list.
  repeat split; try done.
  - intros H0. apply oldest_none. by apply nil_length_inv.
  - intros Hn. apply oldest_none in Hn. unfold select in Hn. by rewrite Hn.
Qed.

Lemma get_stats_total_witness :
  db_raises q_failed_once = false
  ∧ n_total (get_stats q_failed_once) = size (table q_failed_once).
Proof.
  split; [reflexivity|].
  exact (proj1 (get_stats_total q_failed_once eq_refl)).
Defined.

Lemma insert_by_created_sorted (x : QueueItem) (l : list QueueItem) :
  StronglySorted (λ a b, (created_at a <= created_at b)%Q) l →
  StronglySorted (λ a b, (created_at a <= created_at b)%Q) (insert_by_created x l).
Proof.
  induction 1 as [|y l Hl IH Hy]; simpl.
  - repeat constructor.
  - destruct (Qle_bool (created_at x) (created_at y)) eqn:Hle.
    + apply Qle_bool_iff in Hle. constructor; [by constructor|].
      constructor; [done|].
      eapply Forall_impl; [exact Hy|]. intros z Hz. simpl in Hz. by eapply Qle_trans.
    + assert (created_at y <= created_at x)%Q as Hyx.
      { apply Qlt_le_weak, Qnot_le_lt. intros H. apply Qle_bool_iff in H. congruence. }
      constructor; [done|].
      apply Forall_forall. intros z Hz. apply insert_by_created_elem in Hz as [->|Hz]; [done|].
      rewrite Forall_forall in Hy. by apply Hy.
Qed.

Lemma order_by_created_sorted (l : list QueueItem) :
  StronglySorted (λ a b, (created_at a <= created_at b)%Q) (order_by_created l).
Proof.
  unfold order_by_created. induction l as [|x l IH]; simpl; [constructor|].
  by apply insert_by_created_sorted.
Qed.

(** X4.  On a store that answers, [get_retryable_items] returns exactly
    the rows that are pending, have between 1 and [max_retries - 1]
    attempts and a retry time that is null or not after [now]; the list is
    in ascending order of [created_at], and each of its items is also in
    [get_all_pending]. *)
Theorem get_retryable_items_spec (q : TranscriptQueue) (now : Q) :
  db_raises q = false →
  (∀ it, it ∈ get_retryable_items q now ↔
     (∃ k, table q !! k = Some it)
     ∧ status it = pending
     ∧ (0 < attempts it < max_retries q)%Z
     ∧ ∀ t, next_retry it = Some t → (t <= now)%Q)
  ∧ StronglySorted (λ a b, (created_at a <= created_at b)%Q) (get_retryable_items q now)
  ∧ ∀ it, it ∈ get_retryable_items q now → it ∈ get_all_pending q.
Proof.
  intros Hh. unfold get_retryable_items, get_all_pending. rewrite (connect_healthy q Hh).
  assert (∀ it, retryable (max_retries q) now it = true ↔
            status it = pending ∧ (0 < attempts it < max_retries q)%Z
            ∧ ∀ t, next_retry it = Some t → (t <= now)%Q) as Hret.
  { intros it. unfold retryable, is_status, retry_due.
    rewrite !andb_true_iff, bool_decide_eq_true, !Z.ltb_lt.
    destruct (next_retry it) as [t|].
    - rewrite Qle_bool_iff. split.
      + intros [[[? ?] ?] ?]. repeat split; try done. by intros ? [= <-].
      + intros (? & [? ?] & Hdue). repeat split; try done. by apply Hdue.
    - split; [intros [[[? ?] ?] ?]|intros (? & [? ?] & ?)]; repeat split; done. }
  split; [|split].
  - intros it. rewrite order_by_created_elem, select_elem, Hret. tauto.
  - apply order_by_created_sorted.
  - intros it. rewrite !order_by_created_elem, !select_elem, Hret.
    intros [(Hp & _) Hk]. split; [|done]. unfold is_status. by apply bool_decide_eq_true.
Qed.

Lemma get_retryable_items_spec_witness :
  db_raises q_failed_once = false
  ∧ StronglySorted (λ a b, (created_at a <= created_at b)%Q)
      (get_retryable_items q_failed_once 103)
  ∧ ∀ it, it ∈ get_retryable_items q_failed_once 103 → it ∈ get_all_pending q_failed_once.
Proof.
  split; [reflexivity|].
  destruct (get_retryable_items_spec q_failed_once 103 eq_refl) as (_ & H2 & H3).
  exact (conj H2 H3).
Defined.

Lemma head_insert_by_created (x : QueueItem) (l : list QueueItem) :
  head (insert_by_created x l) =
    match head l with
    | None => Some x
    | Some y => if Qle_bool (created_at x) (created_at y) then Some x else Some y
    end.
Proof. destruct l as [|y l]; simpl; [done|]. by destruct (Qle_bool _ _). Qed.

Lemma head_order_by_created (l : list QueueItem) : head (order_by_created l) = oldest l.
Proof.
  unfold order_by_created. induction l as [|x l IH]; simpl; [done|].
  by rewrite head_insert_by_created, IH.
Qed.

Lemma get_next_pending_head (q : TranscriptQueue) :
  get_next_pending q = head (get_all_pending q).
Proof.
  unfold get_next_pending, get_all_pending, connect.
  destruct (db_raises q); simpl; [done|]. by rewrite head_order_by_created.
Qed.

Lemma get_all_pending_sorted (q : TranscriptQueue) :
  StronglySorted (λ a b, (created_at a <= created_at b)%Q) (get_all_pending q).
Proof.
  unfold get_all_pending, connect.
  destruct (db_raises q); simpl; [constructor|apply order_by_created_sorted].
Qed.

(** X5.  [get_all_pending] is in ascending order of [created_at] and, on a
    store that answers, holds exactly the pending rows.  [get_next_pending]
    returns nothing exactly when that list is empty; the item it returns is
    in the list and no item of the list was created before it. *)
Theorem get_next_pending_heads_all_pending (q : TranscriptQueue) :
  StronglySorted (λ a b, (created_at a <= created_at b)%Q) (get_all_pending q)
  ∧ (db_raises q = false →
     ∀ it, it ∈ get_all_pending q ↔ (∃ k, table q !! k = Some it) ∧ status it = pending)
  ∧ (get_next_pending q = None ↔ get_all_pending q = [])
  ∧ ∀ it, get_next_pending q = Some it →
      it ∈ get_all_pending q
      ∧ ∀ it', it' ∈ get_all_pending q → (created_at it <= created_at it')%Q.
Proof.
  split; [apply get_all_pending_sorted|]. split; [|split].
  - unfold get_all_pending, connect. intros ->. simpl.
    intros it. rewrite order_by_created_elem, select_elem.
    unfold is_status. rewrite bool_decide_eq_true. tauto.
  - rewrite get_next_pending_head. by destruct (get_all_pending q).
  - intros it. rewrite get_next_pending_head.
    pose proof (get_all_pending_sorted q) as Hs.
    destruct (get_all_pending q) as [|x l]; simpl; [done|]. intros [= ->].
    split; [by left|]. intros it' Hin. apply StronglySorted_inv in Hs as [_ Hall].
    apply elem_of_cons in Hin as [->|Hin]; [apply Qle_refl|].
    rewrite Forall_forall in Hall. by apply Hall.
Qed.

(** X6.  When the cutoff, [days_old] days before [now], is a date
    [datetime] can hold, [cleanup_old_items] on a store that answers keeps
    exactly the rows that are not both [sent] and sent before the cutoff,
    unchanged; a row without [sent_at] is kept; the number returned plus
    the rows left is the number of rows before.  When the cutoff is
    outside that range the method raises and the queue is as before. *)
Theorem cleanup_old_items_spec (q : TranscriptQueue) (now : Q) (days_old : Z) :
  db_raises q = false →
  let cutoff := (now - inject_Z (days_old * 86400))%Q in
  let r := cleanup_old_items q now days_old in
  (is_datetime cutoff = true →
     (∀ k it, table r.2 !! k = Some it ↔
        table q !! k = Some it
        ∧ ¬ (status it = sent ∧ ∃ t, sent_at it = Some t ∧ (t < cutoff)%Q))
     ∧ ∃ n, r.1 = Some n ∧ (n + size (table r.2))%nat = size (table q))
  ∧ (is_datetime cutoff = false → r = (None, q)).
Proof.
  intros Hh cutoff r. subst r. unfold cleanup_old_items. rewrite (connect_healthy q Hh).
  fold cutoff. split; [|by intros ->].
  intros ->. simpl. split.
  - intros k it. rewrite map_lookup_filter_Some. simpl.
    assert (expired cutoff it = false ↔
            ¬ (status it = sent ∧ ∃ t, sent_at it = Some t ∧ (t < cutoff)%Q)) as ->; [|done].
    unfold expired, is_status. rewrite andb_false_iff, bool_decide_eq_false.
    destruct (sent_at it) as [t|].
    + rewrite negb_false_iff, Qle_bool_iff. split.
      * intros [Hs|Hle] [Hs' (t' & [= <-] & Hlt)]; [done|]. lra.
      * intros Hn. destruct (decide (status it = sent)) as [Hs|Hs]; [|by left].
        right. apply Qnot_lt_le. intros Hlt. apply Hn. eauto.
    + split; [|by right]. intros _ [_ (t & Ht & _)]. done.
  - eexists. split; [reflexivity|].
    pose proof (map_subseteq_size _ _
      (map_filter_subseteq (λ kv : string * QueueItem, expired cutoff kv.2 = false) (table q))).
    lia.
Qed.

Lemma cleanup_old_items_spec_witness :
  db_raises q_sent = false
  ∧ is_datetime (3456102 - inject_Z (30 * 86400)) = true
  ∧ ∃ n, (cleanup_old_items q_sent 3456102 30).1 = Some n
      ∧ (n + size (table (cleanup_old_items q_sent 3456102 30).2))%nat
        = size (table q_sent).
Proof.
  assert (is_datetime (3456102 - inject_Z (30 * 86400)) = true) as H
    by (vm_compute; reflexivity).
  split; [reflexivity|]. split; [exact H|].
  exact (proj2 (proj1 (cleanup_old_items_spec q_sent 3456102 30 eq_refl) H)).
Defined.

(** X7.  While the store raises, no write goes through and the queue is
    left as it is: [add_transcript] raises, the four marking methods return
    [False], [cleanup_old_items] returns 0 (or raises, when its cutoff is no
    date), [get_item] returns nothing; and a dispatch by the sender changes
    nothing, since it stops at the failed [mark_as_sending]. *)
Theorem failing_store_rejects_writes (q : TranscriptQueue) (now : Q) (id : string) :
  db_raises q = true →
  (∀ d, add_transcript q now id d = (None, q))
  ∧ mark_as_sending q now id = (false, q)
  ∧ (∀ r, mark_as_sent q now id r = (false, q))
  ∧ (∀ e, mark_as_failed q now id e = (false, q))
  ∧ reset_attempts q id = (false, q)
  ∧ (∀ d, cleanup_old_items q now d
          = (if is_datetime (now - inject_Z (d * 86400)) then Some 0%nat else None, q))
  ∧ get_item q id = None
  ∧ get_all_pending q = []
  ∧ ∀ s t_send t_done item o,
      queue s = q → _send_transcript s t_send t_done item o = s.
Proof.
  intros Hr.
  unfold add_transcript, mark_as_sending, mark_as_sent, mark_as_failed, reset_attempts,
    cleanup_old_items, get_item, get_all_pending.
  rewrite (connect_raising q Hr). repeat split.
  - intros d. by destruct (is_datetime _).
  - intros s t1 t2 item o <-. unfold _send_transcript, mark_as_sending.
    rewrite (connect_raising _ Hr). by destruct (url_set (api_url s)).
Qed.

Lemma failing_store_rejects_writes_witness :
  db_raises (with_fault q_added true) = true
  ∧ mark_as_sending (with_fault q_added true) 101 "a1b2c3d4"
    = (false, with_fault q_added true)
  ∧ reset_attempts (with_fault q_added true) "a1b2c3d4" = (false, with_fault q_added true)
  ∧ cleanup_old_items (with_fault q_added true) 3456102 30
    = (Some 0%nat, with_fault q_added true).
Proof.
  split; [reflexivity|].
  destruct (failing_store_rejects_writes (with_fault q_added true) 101 "a1b2c3d4" eq_refl)
    as (_ & H2 & _ & _ & H5 & _).
  destruct (failing_store_rejects_writes (with_fault q_added true) 3456102 "a1b2c3d4"
              eq_refl) as (_ & _ & _ & _ & _ & H6 & _).
  split; [exact H2|]. split; [exact H5|]. exact (H6 30%Z).
Defined.

Lemma pow2_step (n : Z) : (2 ^ (n - 1) <= 2 ^ n)%Q.
Proof. apply Qpower_le_compat_l; [lia|]. by compute. Qed.

Lemma pow2_nonneg (n : Z) : (0 <= 2 ^ n)%Q.
Proof. apply Qpower_0_le. by compute. Qed.

(** X8.  The delay computed by [mark_as_failed] never exceeds
    [max_retry_delay]; with a base delay that is not negative it does not
    decrease from one attempt to the next, and with a cap that is not
    negative either it is not negative. *)
Theorem retry_delay_bounds (q : TranscriptQueue) (n : Z) :
  (retry_delay q n <= inject_Z (max_retry_delay q))%Q
  ∧ ((0 <= base_retry_delay q)%Z → (retry_delay q n <= retry_delay q (n + 1))%Q)
  ∧ ((0 <= base_retry_delay q)%Z → (0 <= max_retry_delay q)%Z → (0 <= retry_delay q n)%Q).
Proof.
  unfold retry_delay. split; [apply Q.le_min_r|]. split.
  - intros Hb. apply Q.min_le_compat_r.
    replace (n + 1 - 1)%Z with n by lia.
    rewrite Zle_Qle in Hb.
    rewrite !(Qmult_comm (inject_Z (base_retry_delay q))).
    apply Qmult_le_compat_r; [apply pow2_step|exact Hb].
  - intros Hb Hm. rewrite Zle_Qle in Hb, Hm. apply Q.min_glb; [|exact Hm].
    apply Qmult_le_0_compat; [exact Hb|apply pow2_nonneg].
Qed.

(** What a step leaves of a row that was there, and what a new row is. *)
Lemma step_row_payload (q : TranscriptQueue) (now : Q) (op : Op) (k : string)
    (it' : QueueItem) :
  table (step q now op) !! k = Some it' →
  match table q !! k with
  | Some it =>
      item_id it' = item_id it ∧ timestamp it' = timestamp it ∧ text it' = text it
      ∧ file_path it' = file_path it
      ∧ transcript_timestamp it' = transcript_timestamp it
      ∧ created_at it' = created_at it
      ∧ (attempts it' = attempts it ∨ attempts it' = (attempts it + 1)%Z
         ∨ attempts it' = 0%Z)
  | None => item_id it' = k ∧ attempts it' = 0%Z ∧ created_at it' = now
            ∧ timestamp it' = now
  end.
Proof.
  destruct op as [i d|i|i r|i e|i|d|b]; simpl;
    unfold add_transcript, mark_as_sending, mark_as_sent, mark_as_failed,
      reset_attempts, cleanup_old_items, connect;
    try (destruct (negb (is_datetime _)); simpl;
         [intros Hk; rewrite Hk; repeat split; by auto|]);
    destruct (db_raises q); simpl;
    try (intros Hk; rewrite Hk; repeat split; by auto).
  - destruct (table q !! i) as [it0|] eqn:Hi; simpl.
    + intros Hk; rewrite Hk; repeat split; by auto.
    + destruct (decide (i = k)) as [->|Hne].
      * rewrite lookup_insert_eq, Hi. by intros [= <-].
      * rewrite lookup_insert_ne by done. intros Hk; rewrite Hk; repeat split; by auto.
  - destruct (table q !! i) as [it0|] eqn:Hi; simpl;
      [|intros Hk; rewrite Hk; repeat split; by auto].
    destruct (decide (i = k)) as [->|Hne].
    + rewrite lookup_insert_eq, Hi. intros [= <-]. simpl. repeat split; auto.
    + rewrite lookup_insert_ne by done. intros Hk; rewrite Hk; repeat split; by auto.
  - destruct (table q !! i) as [it0|] eqn:Hi; simpl;
      [|intros Hk; rewrite Hk; repeat split; by auto].
    destruct (decide (i = k)) as [->|Hne].
    + rewrite lookup_insert_eq, Hi. intros [= <-]. simpl. repeat split; auto.
    + rewrite lookup_insert_ne by done. intros Hk; rewrite Hk; repeat split; by auto.
  - destruct (table q !! i) as [it0|] eqn:Hi; simpl;
      [|intros Hk; rewrite Hk; repeat split; by auto].
    destruct (negb (is_datetime _)); simpl;
      [intros Hk; rewrite Hk; repeat split; by auto|].
    destruct (max_retries q <=? attempts it0)%Z; simpl;
      (destruct (decide (i = k)) as [->|Hne];
       [rewrite lookup_insert_eq, Hi; intros [= <-]; simpl; repeat split; auto
       |rewrite lookup_insert_ne by done; intros Hk; rewrite Hk; repeat split; by auto]).
  - destruct (table q !! i) as [it0|] eqn:Hi; simpl;
      [|intros Hk; rewrite Hk; repeat split; by auto].
    destruct (decide (i = k)) as [->|Hne].
    + rewrite lookup_insert_eq, Hi. intros [= <-]. simpl. repeat split; auto.
    + rewrite lookup_insert_ne by done. intros Hk; rewrite Hk; repeat split; by auto.
  - intros H. apply map_lookup_filter_Some in H as [H _]. rewrite H. repeat split; by auto.
Qed.

(** X9.  In every history of the queue each row is stored under its own
    id and has a count of attempts that is not negative; and no operation
    changes the id, the text, the file path, the transcript timestamp or
    the creation time of a row. *)
Theorem rows_keep_key_and_payload (q : TranscriptQueue) :
  reachable q →
  (∀ k it, table q !! k = Some it → item_id it = k ∧ (0 <= attempts it)%Z)
  ∧ ∀ now op k it it',
      table q !! k = Some it → table (step q now op) !! k = Some it' →
      item_id it' = k ∧ text it' = text it ∧ file_path it' = file_path it
      ∧ transcript_timestamp it' = transcript_timestamp it
      ∧ timestamp it' = timestamp it ∧ created_at it' = created_at it.
Proof.
  intros Hq.
  assert (∀ k it, table q !! k = Some it → item_id it = k ∧ (0 <= attempts it)%Z) as Hinv.
  { induction Hq as [q Hempty|q now op Hq IH _]; intros k it' Hk.
    - by rewrite Hempty, lookup_empty in Hk.
    - pose proof (step_row_payload _ _ _ _ _ Hk) as Hp.
      destruct (table q !! k) as [it|] eqn:Hit.
      + destruct (IH k it Hit) as [Hid Ha].
        destruct Hp as (-> & _ & _ & _ & _ & _ & Hatt). split; [done|].
        destruct Hatt as [->|[->| ->]]; lia.
      + destruct Hp as (-> & -> & _). done. }
  split; [exact Hinv|].
  intros now op k it it' Hit Hk.
  pose proof (step_row_payload _ _ _ _ _ Hk) as Hp. rewrite Hit in Hp.
  destruct (Hinv k it Hit) as [Hid _].
  destruct Hp as (-> & -> & -> & -> & -> & -> & _). done.
Qed.

Lemma rows_keep_key_and_payload_witness :
  table q_sent !! "a1b2c3d4"
    = Some (set_sent 102 (Some "{}"%string) (set_sending 101 the_item))
  ∧ item_id (set_sent 102 (Some "{}"%string) (set_sending 101 the_item))
    = "a1b2c3d4"%string.
Proof.
  assert (table q_sent !! "a1b2c3d4"
          = Some (set_sent 102 (Some "{}"%string) (set_sending 101 the_item))) as H
    by (vm_compute; reflexivity).
  split; [exact H|].
  exact (proj1 (proj1 (rows_keep_key_and_payload q_sent q_sent_reachable) _ _ H)).
Defined.

(** ** The sender *)

(** With delays that are not negative, a retry time is a date as long as
    the clock leaves room for the longest delay. *)
Lemma retry_time_is_datetime (q : TranscriptQueue) (now : Q) (n : Z) :
  (0 <= base_retry_delay q)%Z → (0 <= max_retry_delay q)%Z →
  (0 <= now)%Q → (now + inject_Z (max_retry_delay q) <= datetime_max)%Q →
  is_datetime (now + retry_delay q n) = true.
Proof.
  intros Hb Hm Hnow Hroom.
  assert (retry_delay q n <= inject_Z (max_retry_delay q))%Q as Hle
    by apply Q.le_min_r.
  assert (0 <= retry_delay q n)%Q as Hge.
  { apply Q.min_glb.
    - rewrite Zle_Qle in Hb. apply Qmult_le_0_compat; [exact Hb|apply pow2_nonneg].
    - by rewrite Zle_Qle in Hm. }
  unfold is_datetime. apply andb_true_iff. split; apply Qle_bool_iff; lra.
Qed.

(** The status [mark_as_failed] gives an item with [n] attempts. *)
Lemma mark_as_failed_row (q : TranscriptQueue) (now : Q) (id : string)
    (e : option Json) (it : QueueItem) :
  db_raises q = false → table q !! id = Some it →
  is_datetime (now + retry_delay q (attempts it)) = true →
  ∃ it', table (mark_as_failed q now id e).2 !! id = Some it'
    ∧ attempts it' = attempts it
    ∧ status it' = (if (attempts it <? max_retries q)%Z then pending else failed_permanent)
    ∧ last_error it' = e
    ∧ db_raises (mark_as_failed q now id e).2 = false
    ∧ max_retries (mark_as_failed q now id e).2 = max_retries q
    ∧ base_retry_delay (mark_as_failed q now id e).2 = base_retry_delay q
    ∧ max_retry_delay (mark_as_failed q now id e).2 = max_retry_delay q.
Proof.
  intros Hh Hit Hd. unfold mark_as_failed. rewrite (connect_healthy q Hh), Hit, Hd.
  destruct (Z.leb_spec (max_retries q) (attempts it)) as [Hle|Hlt]; simpl;
    rewrite lookup_insert_eq; eexists; (split; [reflexivity|]); simpl.
  - destruct (Z.ltb_spec (attempts it) (max_retries q)); [lia|done].
  - destruct (Z.ltb_spec (attempts it) (max_retries q)); [done|lia].
Qed.

Lemma mark_as_failed_times_row (n : nat) (q : TranscriptQueue) (now : Q) (id : string)
    (e : Json) (it : QueueItem) :
  db_raises q = false → table q !! id = Some it →
  is_datetime (now + retry_delay q (attempts it)) = true →
  ∃ it', table (mark_as_failed_times (S n) q now id e) !! id = Some it'
    ∧ attempts it' = attempts it
    ∧ status it' = (if (attempts it <? max_retries q)%Z then pending else failed_permanent)
    ∧ db_raises (mark_as_failed_times (S n) q now id e) = false
    ∧ max_retries (mark_as_failed_times (S n) q now id e) = max_retries q
    ∧ base_retry_delay (mark_as_failed_times (S n) q now id e) = base_retry_delay q
    ∧ max_retry_delay (mark_as_failed_times (S n) q now id e) = max_retry_delay q.
Proof.
  revert q it. induction n as [|n IH]; intros q it Hh Hit Hd.
  - destruct (mark_as_failed_row q now id (Some e) it Hh Hit Hd)
      as (it' & H1 & H2 & H3 & _ & H5 & H6 & H7 & H8).
    exists it'. simpl. done.
  - destruct (mark_as_failed_row q now id (Some e) it Hh Hit Hd)
      as (it1 & H1 & H2 & H3 & _ & H5 & H6 & H7 & H8).
    assert (is_datetime (now + retry_delay (mark_as_failed q now id (Some e)).2
                                  (attempts it1)) = true) as Hd1.
    { unfold retry_delay in *. by rewrite H7, H8, H2. }
    destruct (IH _ it1 H5 H1 Hd1) as (it' & K1 & K2 & K3 & K4 & K5 & K6 & K7).
    exists it'. change (mark_as_failed_times (S (S n)) q now id e)
      with (mark_as_failed_times (S n) (mark_as_failed q now id (Some e)).2 now id e).
    rewrite K1, K2, K3, K4, K5, K6, K7, H2, H6, H7, H8. done.
Qed.

(** One failing dispatch of an item that is in the table. *)
Lemma failing_send_row (s : TranscriptSender) (t_send t_done : Q) (item : QueueItem)
    (o : PostOutcome) (it : QueueItem) :
  url_set (api_url s) = true → db_raises (queue s) = false →
  (1 <= max_retries (queue s))%Z →
  table (queue s) !! item_id item = Some it →
  is_success o = false →
  is_datetime (t_done + retry_delay (queue s) (attempts it + 1)) = true →
  let s' := _send_transcript s t_send t_done item o in
  ∃ it', table (queue s') !! item_id item = Some it'
    ∧ attempts it' = (attempts it + 1)%Z
    ∧ status it' = (if (attempts it' <? max_retries (queue s))%Z
                    then pending else failed_permanent)
    ∧ api_url s' = api_url s ∧ db_raises (queue s') = false
    ∧ max_retries (queue s') = max_retries (queue s)
    ∧ base_retry_delay (queue s') = base_retry_delay (queue s)
    ∧ max_retry_delay (queue s') = max_retry_delay (queue s).
Proof.
  intros Hu Hh Hmax Hit Ho Hd s'. subst s'. unfold _send_transcript. rewrite Hu.
  unfold mark_as_sending. rewrite (connect_healthy _ Hh), Hit. simpl.
  set (q1 := with_table (queue s) (<[item_id item:=set_sending t_send it]> (table (queue s)))).
  assert (db_raises q1 = false) as Hh1 by done.
  assert (table q1 !! item_id item = Some (set_sending t_send it)) as Hit1
    by apply lookup_insert_eq.
  assert (max_retries q1 = max_retries (queue s)) as Hm1 by done.
  assert (is_datetime (t_done + retry_delay q1 (attempts (set_sending t_send it))) = true)
    as Hd1 by exact Hd.
  destruct o as [r|e|e|resp e|e]; [done|..]; simpl.
  - destruct (mark_as_failed_row q1 t_done _ (Some e) _ Hh1 Hit1 Hd1)
      as (it' & H1 & H2 & H3 & _ & H5 & H6 & H7 & H8).
    exists it'. rewrite H1, H2, H3, H5, H6, H7, H8. done.
  - destruct (mark_as_failed_row q1 t_done _ (Some e) _ Hh1 Hit1 Hd1)
      as (it' & H1 & H2 & H3 & _ & H5 & H6 & H7 & H8).
    exists it'. rewrite H1, H2, H3, H5, H6, H7, H8. done.
  - destruct (is_client_error resp); simpl.
    + destruct (Z.to_nat (max_retries (queue s))) as [|n] eqn:Hn; [lia|].
      destruct (mark_as_failed_times_row n q1 t_done _ e _ Hh1 Hit1 Hd1)
        as (it' & H1 & H2 & H3 & H5 & H6 & H7 & H8).
      exists it'. rewrite H1, H2, H3, H5, H6, H7, H8. done.
    + destruct (mark_as_failed_row q1 t_done _ (Some e) _ Hh1 Hit1 Hd1)
        as (it' & H1 & H2 & H3 & _ & H5 & H6 & H7 & H8).
      exists it'. rewrite H1, H2, H3, H5, H6, H7, H8. done.
  - destruct (mark_as_failed_row q1 t_done _ (Some e) _ Hh1 Hit1 Hd1)
      as (it' & H1 & H2 & H3 & _ & H5 & H6 & H7 & H8).
    exists it'. rewrite H1, H2, H3, H5, H6, H7, H8. done.
Qed.

Lemma failing_sends_rows (M B C : Z) (item : QueueItem)
    (sends : list (Q * Q * PostOutcome)) :
  (1 <= M)%Z → (0 <= B)%Z → (0 <= C)%Z →
  Forall (λ e, is_success e.2 = false) sends →
  Forall (λ e, (0 <= e.1.2)%Q ∧ (e.1.2 + inject_Z C <= datetime_max)%Q) sends →
  ∀ (s : TranscriptSender) (it : QueueItem),
    url_set (api_url s) = true → db_raises (queue s) = false →
    max_retries (queue s) = M → base_retry_delay (queue s) = B →
    max_retry_delay (queue s) = C →
    table (queue s) !! item_id item = Some it →
    ∃ it', table (queue (send_each s item sends)) !! item_id item = Some it'
      ∧ attempts it' = (attempts it + Z.of_nat (length sends))%Z
      ∧ (sends = [] ∧ it' = it
         ∨ status it' = (if (attempts it' <? M)%Z then pending else failed_permanent)).
Proof.
  intros HM HB HC Hfail. induction Hfail as [|e sends He Hall IH];
    intros Htimes s it Hu Hh Hmax Hbase Hcap Hit.
  - exists it. split; [exact Hit|]. split; [simpl; lia|by left].
  - apply Forall_cons in Htimes as [[Ht0 Ht1] Htimes].
    unfold send_each. simpl foldl. unfold _send_transcript_thread at 2.
    assert (is_datetime (e.1.2 + retry_delay (queue s) (attempts it + 1)) = true) as Hd.
    { apply retry_time_is_datetime; [lia|lia|exact Ht0|by rewrite Hcap]. }
    destruct (failing_send_row s e.1.1 e.1.2 item e.2 it Hu Hh ltac:(lia) Hit He Hd)
      as (it1 & K1 & K2 & K3 & K4 & K5 & K6 & K7 & K8).
    rewrite Hmax in K3, K6. rewrite Hbase in K7. rewrite Hcap in K8.
    rewrite <- K4 in Hu.
    destruct (IH Htimes _ it1 Hu K5 K6 K7 K8 K1) as (it' & M1 & M2 & M3).
    exists it'. split; [exact M1|]. split; [rewrite M2, K2; simpl length; lia|].
    right. destruct M3 as [[_ ->]|M3]; [exact K3|exact M3].
Qed.

(** X10.  Let the delays of the queue be not negative, let an item have a
    count of attempts that is not negative, and let each of a non-empty
    sequence of dispatches of it fail (connection error, timeout, HTTP
    error of any status, or another exception) at a time that leaves room
    for [max_retry_delay] before the last date of [datetime].  Then the
    item's attempts have grown by the number of dispatches, and its status
    is [pending] if that count is below [max_retries] and
    [failed_permanent] otherwise.  The status of the item before the first
    dispatch does not matter. *)
Theorem failing_sends_exhaust_retries (s : TranscriptSender) (item : QueueItem)
    (sends : list (Q * Q * PostOutcome)) (it : QueueItem) :
  url_set (api_url s) = true →
  db_raises (queue s) = false →
  (1 <= max_retries (queue s))%Z →
  (0 <= base_retry_delay (queue s))%Z →
  (0 <= max_retry_delay (queue s))%Z →
  table (queue s) !! item_id item = Some it →
  (0 <= attempts it)%Z →
  Forall (λ e, is_success e.2 = false) sends →
  Forall (λ e, (0 <= e.1.2)%Q
               ∧ (e.1.2 + inject_Z (max_retry_delay (queue s)) <= datetime_max)%Q) sends →
  sends ≠ [] →
  ∃ it', table (queue (send_each s item sends)) !! item_id item = Some it'
    ∧ attempts it' = (attempts it + Z.of_nat (length sends))%Z
    ∧ status it' = (if (attempts it' <? max_retries (queue s))%Z
                    then pending else failed_permanent).
Proof.
  intros Hu Hh Hmax Hb Hc Hit _ Hall Htimes Hne.
  destruct (failing_sends_rows _ _ _ item sends Hmax Hb Hc Hall Htimes s it Hu Hh
              eq_refl eq_refl eq_refl Hit)
    as (it' & H1 & H2 & [[? _]|H3]); [done|].
  by exists it'.
Qed.

Lemma failing_sends_exhaust_retries_witness :
  url_set (api_url (sender_over q_added)) = true
  ∧ table q_added !! item_id the_item = Some the_item
  ∧ Forall (λ e, (0 <= e.1.2)%Q
                 ∧ (e.1.2 + inject_Z (max_retry_delay q_added) <= datetime_max)%Q)
      failed_sends
  ∧ ∃ it', table (queue (send_each (sender_over q_added) the_item failed_sends))
             !! item_id the_item = Some it'
      ∧ attempts it' = 5%Z
      ∧ status it' = failed_permanent.
Proof.
  assert (table q_added !! item_id the_item = Some the_item) as H
    by (vm_compute; reflexivity).
  assert (Forall (λ e, (0 <= e.1.2)%Q
                       ∧ (e.1.2 + inject_Z (max_retry_delay q_added) <= datetime_max)%Q)
            failed_sends) as Ht.
  { unfold failed_sends.
    repeat (apply Forall_cons; split; [split; vm_compute; discriminate|]).
    constructor. }
  split; [reflexivity|]. split; [exact H|]. split; [exact Ht|].
  destruct (failing_sends_exhaust_retries (sender_over q_added) the_item failed_sends
              the_item eq_refl eq_refl) as (it' & H1 & H2 & H3).
  - vm_compute. discriminate.
  - vm_compute. discriminate.
  - vm_compute. discriminate.
  - exact H.
  - vm_compute. discriminate.
  - unfold failed_sends. repeat constructor.
  - exact Ht.
  - discriminate.
  - exists it'. split; [exact H1|]. split; [exact H2|].
    rewrite H3, H2. reflexivity.
Defined.

(** X11.  A dispatch answered with success leaves the item [sent], with
    one attempt more, [last_attempt] at the time of the dispatch, [sent_at]
    at the time of the answer and the response stored; its error and retry
    time stay as they were, no other row changes, the sender stays online
    as it was, and neither [get_next_pending] nor [get_retryable_items]
    returns the item afterwards. *)
Theorem successful_send_marks_sent (s : TranscriptSender) (t_send t_done : Q)
    (item it : QueueItem) (response_data : Json) :
  url_set (api_url s) = true →
  db_raises (queue s) = false →
  table (queue s) !! item_id item = Some it →
  let s' := _send_transcript s t_send t_done item (Success response_data) in
  (∃ it', get_item (queue s') (item_id item) = Some it'
     ∧ status it' = sent
     ∧ attempts it' = (attempts it + 1)%Z
     ∧ last_attempt it' = Some t_send
     ∧ sent_at it' = Some t_done
     ∧ response it' = Some response_data
     ∧ last_error it' = last_error it ∧ next_retry it' = next_retry it
     ∧ get_next_pending (queue s') ≠ Some it'
     ∧ ∀ now, it' ∉ get_retryable_items (queue s') now)
  ∧ (∀ j, j ≠ item_id item → get_item (queue s') j = get_item (queue s) j)
  ∧ is_online s' = is_online s.
Proof.
  intros Hu Hh Hit s'.
  assert (queue s' = with_table (queue s)
            (<[item_id item := set_sent t_done (Some response_data) (set_sending t_send it)]>
               (table (queue s))) ∧ is_online s' = is_online s) as [Hq Ho].
  { subst s'. unfold _send_transcript. rewrite Hu.
    unfold mark_as_sending. rewrite (connect_healthy _ Hh), Hit. simpl.
    unfold mark_as_sent, connect. simpl. rewrite Hh.
    rewrite lookup_insert_eq. simpl. unfold with_table. simpl.
    by rewrite insert_insert_eq. }
  rewrite Hq. unfold get_item, connect. simpl. rewrite Hh.
  split; [|split; [|done]].
  - rewrite lookup_insert_eq. eexists. split; [reflexivity|]. simpl.
    repeat split.
    + intros Hn. by apply get_next_pending_oldest_pending in Hn as (Hp & _).
    + intros now Hin. unfold get_retryable_items, connect in Hin. simpl in Hin.
      rewrite Hh in Hin. apply order_by_created_elem, select_elem in Hin as [Hret _].
      unfold retryable in Hret. rewrite !andb_true_iff in Hret.
      destruct Hret as [[[Hp _] _] _]. done.
  - intros j Hj. by rewrite lookup_insert_ne.
Qed.

Lemma successful_send_marks_sent_witness :
  url_set (api_url (sender_over q_added)) = true
  ∧ db_raises q_added = false
  ∧ table q_added !! "a1b2c3d4" = Some the_item
  ∧ ∃ it', get_item (queue (_send_transcript (sender_over q_added) 101 102 the_item
                              (Success "{}"))) "a1b2c3d4" = Some it'
      ∧ status it' = sent ∧ attempts it' = 1%Z.
Proof.
  assert (table q_added !! "a1b2c3d4" = Some the_item) as H by (vm_compute; reflexivity).
  split; [reflexivity|]. split; [reflexivity|]. split; [exact H|].
  destruct (successful_send_marks_sent (sender_over q_added) 101 102 the_item the_item "{}"
              eq_refl eq_refl H) as ((it' & H1 & H2 & H3 & _) & _).
  exists it'. split; [exact H1|]. split; [exact H2|exact H3].
Defined.

(** Rows under other keys, and the fields of the sender a failure marking
    keeps. *)
Lemma mark_as_failed_other (q : TranscriptQueue) (now : Q) (id : string)
    (e : option Json) (j : string) :
  j ≠ id → table (mark_as_failed q now id e).2 !! j = table q !! j.
Proof.
  intros Hj. unfold mark_as_failed, connect. destruct (db_raises q); [done|].
  destruct (table q !! id) as [it|]; [|done].
  destruct (negb (is_datetime _)); [done|].
  destruct (_ <=? _)%Z; simpl; by rewrite lookup_insert_ne.
Qed.

Lemma mark_as_failed_times_other (n : nat) (q : TranscriptQueue) (now : Q) (id : string)
    (e : Json) (j : string) :
  j ≠ id → table (mark_as_failed_times n q now id e) !! j = table q !! j.
Proof.
  intros Hj. revert q. induction n as [|n IH]; intros q; simpl; [done|].
  by rewrite IH, mark_as_failed_other.
Qed.

(** X12.  [_send_transcript] does nothing when [api_url] is [None] or
    empty, and nothing for an id that [get_item] does not find.  In every
    case it leaves the rows of the other ids, the [api_url] and the
    counters of the sender as they are, and it changes [is_online] only by
    setting it to false on a connection error. *)
Theorem send_transcript_guards (s : TranscriptSender) (t_send t_done : Q)
    (item : QueueItem) (o : PostOutcome) :
  let s' := _send_transcript s t_send t_done item o in
  (url_set (api_url s) = false → s' = s)
  ∧ (api_url s = None ∨ api_url s = Some ""%string → s' = s)
  ∧ (get_item (queue s) (item_id item) = None → s' = s)
  ∧ api_url s' = api_url s
  ∧ max_concurrent_sends s' = max_concurrent_sends s
  ∧ active_sends s' = active_sends s
  ∧ (is_online s' = is_online s ∨ is_online s' = false ∧ ∃ e, o = ConnectionError e)
  ∧ ∀ j, j ≠ item_id item → table (queue s') !! j = table (queue s) !! j.
Proof.
  intros s'. subst s'. unfold _send_transcript.
  destruct (url_set (api_url s)) eqn:Hu; simpl; [|by repeat split; auto].
  split; [done|]. split; [by intros [H|H]; rewrite H in Hu|].
  unfold mark_as_sending, get_item, connect.
  destruct (db_raises (queue s)) eqn:Hr; simpl; [by repeat split; auto|].
  destruct (table (queue s) !! item_id item) as [it|] eqn:Hit; simpl;
    [|by repeat split; auto].
  split; [done|].
  destruct o as [r|e|e|resp e|e]; simpl.
  - repeat split; auto. intros j Hj.
    unfold mark_as_sent, connect. simpl. rewrite Hr, lookup_insert_eq. simpl.
    by rewrite !lookup_insert_ne.
  - repeat split; eauto. intros j Hj.
    rewrite mark_as_failed_other by done. simpl. by rewrite lookup_insert_ne.
  - repeat split; auto. intros j Hj.
    rewrite mark_as_failed_other by done. simpl. by rewrite lookup_insert_ne.
  - destruct (is_client_error resp); simpl; (repeat split; auto); intros j Hj.
    + rewrite mark_as_failed_times_other by done. simpl. by rewrite lookup_insert_ne.
    + rewrite mark_as_failed_other by done. simpl. by rewrite lookup_insert_ne.
  - repeat split; auto. intros j Hj.
    rewrite mark_as_failed_other by done. simpl. by rewrite lookup_insert_ne.
Qed.

(** X13.  On a store that answers, [retry_item] returns [False] and does
    nothing for an id that is not there; for an id that is there it
    returns [True], resets the item, and, offline, stops there, the item
    being pending with no attempt; online it goes on to dispatch the reset
    item. *)
Theorem retry_item_spec (s : TranscriptSender) (t_send t_done : Q) (id : string)
    (o : PostOutcome) :
  db_raises (queue s) = false →
  match table (queue s) !! id with
  | None => retry_item s t_send t_done id o = (false, s)
  | Some it =>
      (retry_item s t_send t_done id o).1 = true
      ∧ (is_online s = false →
           (retry_item s t_send t_done id o).2
           = with_queue s (reset_attempts (queue s) id).2
           ∧ ∃ it', get_item (queue (retry_item s t_send t_done id o).2) id = Some it'
               ∧ status it' = pending ∧ attempts it' = 0%Z ∧ next_retry it' = None)
      ∧ (is_online s = true →
           (retry_item s t_send t_done id o).2
           = _send_transcript (with_queue s (reset_attempts (queue s) id).2)
               t_send t_done (set_reset it) o)
  end.
Proof.
  intros Hh. unfold retry_item, reset_attempts. rewrite (connect_healthy _ Hh).
  destruct (table (queue s) !! id) as [it|] eqn:Hit; [|done].
  simpl. unfold get_item, connect. simpl. rewrite Hh, lookup_insert_eq.
  destruct (is_online s); simpl.
  - split; [done|]. split; [done|]. done.
  - split; [done|]. split; [|done]. intros _. split; [done|].
    unfold connect. simpl. rewrite Hh, lookup_insert_eq. eexists. split; [reflexivity|]. done.
Qed.

Lemma retry_item_spec_witness :
  db_raises (queue (sender_over q_failed_permanent)) = false
  ∧ (retry_item (sender_over q_failed_permanent) 160 161 "a1b2c3d4" (Success "{}")).1 = true.
Proof.
  split; [reflexivity|].
  pose proof (retry_item_spec (sender_over q_failed_permanent) 160 161 "a1b2c3d4"
                (Success "{}") eq_refl) as H.
  destruct (table (queue (sender_over q_failed_permanent)) !! "a1b2c3d4") as [it|] eqn:E.
  - exact (proj1 H).
  - vm_compute in E. discriminate E.
Defined.

(** Whatever the outcome, a dispatch that reaches the queue adds one
    attempt. *)
Lemma send_transcript_attempts (s : TranscriptSender) (t_send t_done : Q)
    (item it : QueueItem) (o : PostOutcome) :
  url_set (api_url s) = true → db_raises (queue s) = false →
  table (queue s) !! item_id item = Some it →
  attempts <$> table (queue (_send_transcript s t_send t_done item o)) !! item_id item
  = Some (attempts it + 1)%Z.
Proof.
  intros Hu Hh Hit.
  unfold _send_transcript. rewrite Hu.
  unfold mark_as_sending. rewrite (connect_healthy _ Hh), Hit. simpl.
  destruct o as [r|e|e|resp e|e]; simpl.
  - unfold mark_as_sent, connect. simpl. rewrite Hh, lookup_insert_eq. simpl.
    by rewrite lookup_insert_eq.
  - rewrite mark_as_failed_attempts. simpl. by rewrite lookup_insert_eq.
  - rewrite mark_as_failed_attempts. simpl. by rewrite lookup_insert_eq.
  - destruct (is_client_error resp); simpl.
    + rewrite mark_as_failed_times_attempts. simpl. by rewrite lookup_insert_eq.
    + rewrite mark_as_failed_attempts. simpl. by rewrite lookup_insert_eq.
  - rewrite mark_as_failed_attempts. simpl. by rewrite lookup_insert_eq.
Qed.

(** X14.  [force_send] returns [False] and does nothing when the sender
    is offline or the id is not found.  Online, on a store that answers, it
    dispatches the item as it is: whatever the outcome, the attempts after
    the dispatch are one more than before, whereas after [retry_item] they
    are 1. *)
Theorem force_send_keeps_count (s : TranscriptSender) (t_send t_done : Q) (id : string)
    (o : PostOutcome) :
  (is_online s = false → force_send s t_send t_done id o = (false, s))
  ∧ (get_item (queue s) id = None → force_send s t_send t_done id o = (false, s))
  ∧ ∀ it,
      is_online s = true → url_set (api_url s) = true → db_raises (queue s) = false →
      table (queue s) !! id = Some it → item_id it = id →
      (force_send s t_send t_done id o).1 = true
      ∧ attempts <$> table (queue (force_send s t_send t_done id o).2) !! id
        = Some (attempts it + 1)%Z
      ∧ (retry_item s t_send t_done id o).1 = true
      ∧ attempts <$> table (queue (retry_item s t_send t_done id o).2) !! id
        = Some 1%Z.
Proof.
  split; [|split].
  - intros Hoff. unfold force_send. rewrite Hoff. by destruct (get_item _ _).
  - intros Hnone. unfold force_send. by rewrite Hnone.
  - intros it Hon Hu Hh Hit Hid. subst id.
    unfold force_send, retry_item, reset_attempts, get_item.
    rewrite (connect_healthy _ Hh), Hit, Hon. simpl.
    unfold _send_transcript_thread. split; [done|]. split.
    + by apply send_transcript_attempts.
    + rewrite Hon. unfold connect. simpl. rewrite Hh, lookup_insert_eq. split; [done|].
      apply (send_transcript_attempts
               (with_queue s (with_table (queue s)
                  (<[item_id it := set_reset it]> (table (queue s)))))
               t_send t_done (set_reset it) (set_reset it) o); [done|done|].
      simpl. apply lookup_insert_eq.
Qed.

Lemma slice_to_length {A : Type} (n : Z) (l : list A) :
  (length (slice_to n l) <= length l)%nat
  ∧ ((0 <= n)%Z → (length (slice_to n l) <= Z.to_nat n)%nat).
Proof.
  unfold slice_to. destruct (Z.ltb_spec n 0); rewrite length_take; lia.
Qed.

Lemma slice_to_elem {A : Type} (n : Z) (l : list A) (x : A) :
  x ∈ slice_to n l → x ∈ l.
Proof.
  unfold slice_to. destruct (n <? 0)%Z; intros Hin;
    apply elem_of_take in Hin as (i & Hi & _); by apply list_elem_of_lookup_2 in Hi.
Qed.

(** X15.  Whatever the send threads do while [_process_pending_items]
    runs: it starts no send when [active_sends] has reached
    [max_concurrent_sends] at its test, or when the store raises at both
    of its queries; it starts at most one send more than there are
    retryable items, and at most
    [1 + (max_concurrent_sends - active_sends)], with the counter as read
    at the slice, when that difference is not negative.  Every item it
    starts a send for was a pending row of the queue at the query that
    returned it, and the first of them is the item [get_next_pending]
    returned, when there was one. *)
Theorem polling_step_bound (s : TranscriptSender) (r : Reads) (now : Q) :
  ((max_concurrent_sends s <= active_at_test r)%Z → _process_pending_items s r now = [])
  ∧ (db_raises (queue_at_next r) = true → db_raises (queue_at_retry r) = true →
       _process_pending_items s r now = [])
  ∧ (length (_process_pending_items s r now)
     <= 1 + length (get_retryable_items (queue_at_retry r) now))%nat
  ∧ ((active_at_slice r <= max_concurrent_sends s)%Z →
       (length (_process_pending_items s r now)
        <= 1 + Z.to_nat (max_concurrent_sends s - active_at_slice r))%nat)
  ∧ (∀ it, it ∈ _process_pending_items s r now →
       status it = pending
       ∧ ((∃ k, table (queue_at_next r) !! k = Some it)
          ∨ (∃ k, table (queue_at_retry r) !! k = Some it)
            ∧ (0 < attempts it < max_retries (queue_at_retry r))%Z))
  ∧ ((active_at_test r < max_concurrent_sends s)%Z →
       head (_process_pending_items s r now) = get_next_pending (queue_at_next r)
       ∨ get_next_pending (queue_at_next r) = None).
Proof.
  unfold _process_pending_items.
  destruct (Z.leb_spec (max_concurrent_sends s) (active_at_test r)) as [Hle|Hlt].
  - split; [done|]. split; [done|]. split; [simpl; lia|]. split; [simpl; lia|].
    split; [intros it Hin; by apply elem_of_nil in Hin|]. lia.
  - assert (length (option_list (get_next_pending (queue_at_next r))) <= 1)%nat as Hone
      by (destruct (get_next_pending _); simpl; lia).
    split; [lia|]. split; [|split; [|split; [|split]]].
    + intros Hr1 Hr2. unfold get_next_pending, get_retryable_items.
      rewrite (connect_raising _ Hr1), (connect_raising _ Hr2). simpl.
      unfold slice_to. destruct (_ <? 0)%Z; by rewrite take_nil.
    + rewrite length_app.
      pose proof (proj1 (slice_to_length
                           (max_concurrent_sends s - active_at_slice r)
                           (get_retryable_items (queue_at_retry r) now))).
      lia.
    + intros Hcap. rewrite length_app.
      pose proof (proj2 (slice_to_length
                           (max_concurrent_sends s - active_at_slice r)
                           (get_retryable_items (queue_at_retry r) now)) ltac:(lia)).
      lia.
    + intros it Hin. apply elem_of_app in Hin as [Hin|Hin].
      * destruct (get_next_pending (queue_at_next r)) as [x|] eqn:Hx; simpl in Hin;
          [|by apply elem_of_nil in Hin].
        apply list_elem_of_singleton in Hin as ->.
        apply get_next_pending_oldest_pending in Hx as (? & ? & _). auto.
      * apply slice_to_elem in Hin.
        unfold get_retryable_items, connect in Hin.
        destruct (db_raises (queue_at_retry r)); [by apply elem_of_nil in Hin|].
        apply order_by_created_elem, select_elem in Hin as [Hret Hk].
        unfold retryable in Hret. rewrite !andb_true_iff in Hret.
        destruct Hret as [[[Hp Ha1] Ha2] _]. unfold is_status in Hp.
        apply bool_decide_eq_true in Hp.
        apply Z.ltb_lt in Ha1, Ha2. split; [done|]. right. split; [done|lia].
    + intros _. destruct (get_next_pending (queue_at_next r)); simpl; auto.
Qed.

(** X16.  A round of [_sender_loop] starts no send while the sender is
    offline or its [api_url] is [None] or empty.  A connectivity probe
    whose DNS connection fails, or whose health request raises or is
    answered 400 or above, sets the sender offline without touching the
    queue, and the next round of [_sender_loop] then starts no send. *)
Theorem offline_sender_loop_idle (s : TranscriptSender) (r : Reads) (now : Q) :
  (is_online s = false → _sender_loop s r now = [])
  ∧ (url_set (api_url s) = false → _sender_loop s r now = [])
  ∧ ∀ dns_ok health,
      (dns_ok = false
       ∨ (url_set (api_url s) = true
          ∧ ∀ code, health = Some code → (400 <= code)%Z)) →
      is_online (_connectivity_loop s dns_ok health) = false
      ∧ _sender_loop (_connectivity_loop s dns_ok health) r now = []
      ∧ queue (_connectivity_loop s dns_ok health) = queue s.
Proof.
  unfold _sender_loop. split; [by intros ->|]. split; [intros ->; by rewrite andb_false_r|].
  intros dns_ok health Hdown.
  assert (check_connectivity s dns_ok health = false) as Hc.
  { unfold check_connectivity. destruct Hdown as [->|[-> Hcode]]; [done|].
    destruct dns_ok; [|done]. destruct health as [code|]; [|done].
    apply Z.ltb_ge. by apply Hcode. }
  unfold _connectivity_loop. rewrite Hc. simpl. done.
Qed.

(** ** The segmenter *)

Section VadInvariants.
Import Vad VadScenario.

Lemma deque_append_length (k : nat) (d : list Chunk) (x : Chunk) :
  (length d <= k)%nat → (length (deque_append k d x) <= k)%nat.
Proof.
  intros Hd. unfold deque_append.
  destruct (Nat.eqb_spec k 0) as [->|Hk]; [done|].
  destruct (Nat.leb_spec k (length d)).
  - rewrite length_app. destruct d; simpl in *; lia.
  - rewrite length_app. simpl. lia.
Qed.

(** What [_stop_recording] never touches, and what it leaves of the file
    name. *)
Lemma stop_recording_frame (v : VAD) (now : Q) (w : Disk) :
  let v' := (_stop_recording v now w).1 in
  silence_chunks v' = silence_chunks v ∧ temp_dir v' = temp_dir v
  ∧ min_recording_duration_ms v' = min_recording_duration_ms v
  ∧ callback_set v' = callback_set v
  ∧ voice_buffer v' = voice_buffer v ∧ audio_counter v' = audio_counter v
  ∧ (v' = v ∨ is_recording v' = false ∧ current_audio_file v' = None
               ∧ audio_buffer v' = []).
Proof.
  intros v'. subst v'.
  unfold _stop_recording. destruct (is_recording v); simpl; [|by repeat split; auto].
  destruct (recording_start_time v) as [t0|]; simpl; [|by repeat split; auto].
  destruct (Qlt_bool _ _); simpl.
  { unfold _discard_recording.
    destruct (current_audio_file v); [destruct (remove_ok w)|]; simpl;
      (repeat split; try done); by right. }
  unfold _save_audio_file.
  destruct (current_audio_file v) as [f|] eqn:Hf; simpl.
  - destruct (audio_buffer v) as [|c l] eqn:Hb; simpl.
    + rewrite Hf. destruct (callback_set v) eqn:Hcb; simpl; (repeat split; try done); by right.
    + destruct (write w) as [|[partial|]]; simpl.
      * rewrite Hf. destruct (callback_set v) eqn:Hcb; simpl; (repeat split; try done); by right.
      * unfold _discard_recording. simpl. rewrite Hf.
        destruct (remove_ok w); simpl; (repeat split; try done); by right.
      * unfold _discard_recording. rewrite Hf.
        destruct (remove_ok w); simpl; (repeat split; try done); by right.
  - rewrite Hf. simpl. (repeat split; try done); by left.
Qed.

(** X17.  In every state of a detector the pre-roll buffer holds at most
    [silence_chunks] frames; while recording, the current file is
    [audio_NNNN.wav] of [temp_dir] numbered by [audio_counter]; while idle
    there is no current file. *)
Theorem vad_buffers_invariant (is_speech : Chunk → bool) (v : VAD) :
  reachable is_speech v →
  (length (voice_buffer v) <= silence_chunks v)%nat
  ∧ (is_recording v = true →
       current_audio_file v = Some (audio_path (temp_dir v) (audio_counter v)))
  ∧ (is_recording v = false → current_audio_file v = None).
Proof.
  induction 1 as [sil chunk_ms min_ms dir v Hinit|b v Hv IH|v now w c Hv IH|v now w Hv IH].
  - unfold Vad.__init__ in Hinit. destruct (chunk_ms =? 0)%Z; [done|].
    destruct (_ <? 0)%Z; [done|]. injection Hinit as <-. simpl.
    split; [lia|]. split; done.
  - exact IH.
  - destruct IH as (Hlen & Hrec & Hidle).
    unfold _process_audio_chunk. destruct (is_speech c).
    + simpl. destruct (is_recording v) eqn:Hr; simpl.
      * rewrite Hr. split; [lia|]. split; [intros _; by apply Hrec|done].
      * unfold _start_recording. rewrite Hr. cbn [voice_buffer set_voice_buffer set_audio_buffer set_recording set_start silence_chunks is_recording current_audio_file temp_dir audio_counter length].
        split; [lia|]. split; [intros _; reflexivity|intros ?; discriminate].
    + destruct (is_recording v) eqn:Hr.
      * pose proof (deque_append_length (silence_chunks v) (voice_buffer v) c Hlen) as Hlen'.
        simpl. destruct (_ <=? _)%nat; simpl.
        -- match goal with |- context [_stop_recording ?v2 now w] =>
             destruct (stop_recording_frame v2 now w)
               as (H1 & H2 & _ & _ & H5 & H6 & [->|(H7 & H8 & _)])
           end.
           ++ simpl. rewrite Hr. split; [done|]. split; [intros _; by apply Hrec|done].
           ++ rewrite H1, H5, H7, H8. simpl. split; [done|]. split; done.
        -- rewrite Hr. split; [done|]. split; [intros _; by apply Hrec|done].
      * simpl. rewrite Hr.
        split; [by apply deque_append_length|]. split; [done|]. intros _. by apply Hidle.
  - destruct IH as (Hlen & Hrec & Hidle).
    destruct (stop_recording_frame v now w)
      as (H1 & H2 & _ & _ & H5 & H6 & [->|(H7 & H8 & _)]); [done|].
    rewrite H1, H5, H7, H8. split; [done|]. split; done.
Qed.

Lemma vad_buffers_invariant_witness :
  (length (voice_buffer vad_trailing) <= silence_chunks vad_trailing)%nat
  ∧ current_audio_file vad_trailing = Some "./data/temp/audio_0001.wav"%string.
Proof.
  destruct (vad_buffers_invariant energy vad_trailing
              (reach_chunk energy _ _ _ _ vad_speaking_reachable)) as (H1 & H2 & _).
  split; [exact H1|]. exact (H2 eq_refl).
Defined.

End VadInvariants.

Section VadFrames.
Import Vad VadScenario.

Variable is_speech : Chunk → bool.

(** A deque of at most [k] frames that holds the last frames of [l] holds,
    after one more frame, the last frames of [l ++ [x]]. *)
Lemma deque_append_last_frames (k : nat) (l : list Chunk) (x : Chunk) :
  deque_append k (drop (length l - k) l) x
  = drop (length (l ++ [x]) - k) (l ++ [x]).
Proof.
  unfold deque_append. rewrite length_app. simpl.
  destruct (Nat.eqb_spec k 0) as [->|Hk].
  - rewrite Nat.sub_0_r. rewrite drop_all.
    rewrite drop_ge; [done|]. rewrite length_app. simpl. lia.
  - rewrite length_drop.
    destruct (Nat.leb_spec k (length l - (length l - k))) as [Hle|Hlt].
    + assert (k <= length l)%nat by lia.
      replace (length l + 1 - k)%nat with ((length l - k) + 1)%nat by lia.
      rewrite drop_app_le by lia. f_equal.
      rewrite <- drop_drop.
      by destruct (drop (length l - k) l).
    + assert (length l < k)%nat by lia.
      replace (length l - k)%nat with 0%nat by lia.
      replace (length l + 1 - k)%nat with 0%nat by lia. done.
Qed.

Lemma silence_frames_idle (frames : list (Q * Disk * Chunk)) (v : VAD) (l : list Chunk) :
  is_recording v = false →
  voice_buffer v = drop (length l - silence_chunks v) l →
  Forall (λ f, is_speech f.2 = false) frames →
  _recording_loop is_speech v frames
  = set_voice_buffer
      (drop (length (l ++ frames.*2) - silence_chunks v) (l ++ frames.*2)) v.
Proof.
  revert v l. induction frames as [|[[now w] c] frames IH]; intros v l Hr Hvb Hall.
  - simpl. rewrite app_nil_r, <- Hvb. by destruct v.
  - apply Forall_cons in Hall as [Hc Hall]. simpl in Hc.
    simpl. unfold _process_audio_chunk. rewrite Hc, Hr.
    rewrite Hvb, deque_append_last_frames.
    rewrite (IH _ (l ++ [c])); [|done|done|done].
    simpl. rewrite <- app_assoc. done.
Qed.

(** X18.  Frames of silence fed to an idle detector never start a
    recording: the detector stays idle, no file is written, the callback is
    not called and the counter stays; only the pre-roll buffer changes, to
    the last [silence_chunks] frames of what it held followed by the
    frames read. *)
Theorem silence_never_starts_recording (v : VAD) (frames : list (Q * Disk * Chunk)) :
  is_recording v = false →
  (length (voice_buffer v) <= silence_chunks v)%nat →
  Forall (λ f, is_speech f.2 = false) frames →
  let v' := _recording_loop is_speech v frames in
  v' = set_voice_buffer
         (drop (length (voice_buffer v ++ frames.*2) - silence_chunks v)
               (voice_buffer v ++ frames.*2)) v
  ∧ is_recording v' = false ∧ audio_counter v' = audio_counter v
  ∧ files v' = files v ∧ delivered v' = delivered v
  ∧ (length (voice_buffer v') <= silence_chunks v)%nat.
Proof.
  intros Hr Hlen Hall v'.
  assert (v' = set_voice_buffer
         (drop (length (voice_buffer v ++ frames.*2) - silence_chunks v)
               (voice_buffer v ++ frames.*2)) v) as Hv'.
  { subst v'. apply silence_frames_idle; [done| |done].
    replace (length (voice_buffer v) - silence_chunks v)%nat with 0%nat by lia. done. }
  split; [exact Hv'|]. rewrite Hv'. simpl. repeat split; try done.
  rewrite length_drop. lia.
Qed.

(** Frames of speech read while recording are appended to the capture. *)
Lemma speech_frames_recording (frames rest : list (Q * Disk * Chunk)) (v : VAD) :
  is_recording v = true → voice_buffer v = [] →
  Forall (λ f, is_speech f.2 = true) frames →
  _recording_loop is_speech v (frames ++ rest)
  = _recording_loop is_speech
      (set_voice_buffer [] (set_audio_buffer (audio_buffer v ++ frames.*2) v)) rest.
Proof.
  revert v. induction frames as [|[[now w] c] frames IH]; intros v Hr Hvb Hall.
  - simpl. rewrite app_nil_r. destruct v; simpl in *. by subst.
  - apply Forall_cons in Hall as [Hc Hall]. simpl in Hc.
    simpl. unfold _process_audio_chunk at 1. rewrite Hc, Hr. simpl.
    rewrite IH; [|done|done|done]. simpl. by rewrite <- app_assoc.
Qed.

Lemma deque_append_room (k : nat) (d : list Chunk) (x : Chunk) :
  (length d < k)%nat → deque_append k d x = d ++ [x].
Proof.
  intros Hd. unfold deque_append.
  destruct (Nat.eqb_spec k 0); [lia|].
  destruct (Nat.leb_spec k (length d)); [lia|done].
Qed.

(** Frames of silence read while recording, short of the timeout, are
    appended to the capture and to the silence window. *)
Lemma silence_frames_recording (frames rest : list (Q * Disk * Chunk)) (v : VAD) :
  is_recording v = true →
  Forall (λ f, is_speech f.2 = false) frames →
  (length (voice_buffer v) + length frames < silence_chunks v)%nat →
  _recording_loop is_speech v (frames ++ rest)
  = _recording_loop is_speech
      (set_audio_buffer (audio_buffer v ++ frames.*2)
         (set_voice_buffer (voice_buffer v ++ frames.*2) v)) rest.
Proof.
  revert v. induction frames as [|[[now w] c] frames IH]; intros v Hr Hall Hlen.
  - simpl. rewrite !app_nil_r. by destruct v.
  - apply Forall_cons in Hall as [Hc Hall]. simpl in Hc. simpl in Hlen.
    simpl. unfold _process_audio_chunk at 1. rewrite Hc, Hr. simpl.
    rewrite deque_append_room by lia.
    destruct (Nat.leb_spec (silence_chunks v) (length (voice_buffer v ++ [c]))) as [Hge|_].
    { rewrite length_app in Hge. simpl in Hge. lia. }
    rewrite IH; [|done|done|].
    + simpl. by rewrite <- !app_assoc.
    + simpl. rewrite length_app. simpl. lia.
Qed.

(** X19.  An idle detector that reads a frame of speech, further frames of
    speech, and then [silence_chunks] frames of silence ends idle, with the
    counter one higher, an empty capture buffer and the frames of silence
    in the pre-roll buffer; no file but the one of the new number is
    touched.  When the time of the clock from the first frame of speech to
    the last frame of silence is at least [min_recording_duration_ms] and
    the write goes through, that file holds, in order, the pre-roll, the
    speech and the silence, and the callback, if set, receives its path
    once.  Otherwise the callback is not called, and no file is left under
    that path when its removal goes through; a recording that is too
    short and whose removal fails leaves the files as they were. *)
Theorem utterance_capture (v : VAD) (t0 t1 : Q) (w0 w1 : Disk) (c0 c1 : Chunk)
    (speech silence : list (Q * Disk * Chunk)) :
  is_recording v = false →
  is_speech c0 = true →
  Forall (λ f, is_speech f.2 = true) speech →
  Forall (λ f, is_speech f.2 = false) silence →
  is_speech c1 = false →
  S (length silence) = silence_chunks v →
  let path := audio_path (temp_dir v) (S (audio_counter v)) in
  let capture := voice_buffer v ++ c0 :: speech.*2 ++ silence.*2 ++ [c1] in
  let too_short :=
    Qlt_bool ((t1 - t0) * 1000) (inject_Z (min_recording_duration_ms v)) in
  let v' := _recording_loop is_speech v
              ((t0, w0, c0) :: speech ++ silence ++ [(t1, w1, c1)]) in
  is_recording v' = false
  ∧ audio_counter v' = S (audio_counter v)
  ∧ audio_buffer v' = []
  ∧ voice_buffer v' = silence.*2 ++ [c1]
  ∧ (∀ j, j ≠ path → files v' !! j = files v !! j)
  ∧ (too_short = false → write w1 = Written →
       files v' = <[path := capture]> (files v)
       ∧ delivered v' = (if callback_set v then delivered v ++ [path] else delivered v))
  ∧ (too_short = true ∨ write w1 ≠ Written →
       delivered v' = delivered v
       ∧ (remove_ok w1 = true → files v' = delete path (files v))
       ∧ (too_short = true → remove_ok w1 = false → files v' = files v)).
Proof.
  intros Hr Hc0 Hsp Hsil Hc1 HK path capture too_short v'.
  assert (∃ vK, v' = (_stop_recording vK t1 w1).1
            ∧ is_recording vK = true ∧ recording_start_time vK = Some t0
            ∧ current_audio_file vK = Some path ∧ audio_buffer vK = capture
            ∧ voice_buffer vK = silence.*2 ++ [c1]
            ∧ files vK = files v ∧ delivered vK = delivered v
            ∧ callback_set vK = callback_set v
            ∧ min_recording_duration_ms vK = min_recording_duration_ms v
            ∧ audio_counter vK = S (audio_counter v))
    as (vK & Hv' & K1 & K2 & K3 & K4 & K5 & K6 & K7 & K8 & K9 & K10).
  { subst v'. simpl. unfold _process_audio_chunk at 1. rewrite Hc0, Hr. simpl.
    unfold _start_recording. rewrite Hr. simpl.
    rewrite speech_frames_recording; [|done|done|done]. simpl.
    rewrite silence_frames_recording; [|done|done|simpl; lia]. simpl.
    unfold _process_audio_chunk. rewrite Hc1. simpl.
    rewrite deque_append_room by (rewrite length_fmap; lia).
    destruct (Nat.leb_spec (silence_chunks v) (length (silence.*2 ++ [c1]))) as [_|Hlt].
    2: { rewrite length_app, length_fmap in Hlt. simpl in Hlt. lia. }
    match goal with |- context [_stop_recording ?x t1 w1] => exists x end. split.
    { by destruct (_stop_recording _ t1 w1) as [vf [|]]. }
    simpl. repeat split. subst capture. by rewrite <- !app_assoc. }
  assert (audio_buffer vK ≠ []) as Hne.
  { rewrite K4. subst capture. intros Hnil. apply (f_equal length) in Hnil.
    rewrite length_app in Hnil. simpl in Hnil. lia. }
  rewrite Hv', (stop_recording_cases vK t1 t0 path w1 K1 K2 K3 Hne).
  rewrite K9. fold too_short. rewrite K4, K6, K7, K8.
  assert (∀ (m : gmap string (list Chunk)) j, j ≠ path → delete path m !! j = m !! j)
    as Hdel by (intros m j Hj; by rewrite lookup_delete_ne).
  assert (∀ (m : gmap string (list Chunk)) x j, j ≠ path → <[path := x]> m !! j = m !! j)
    as Hins by (intros m x j Hj; by rewrite lookup_insert_ne).
  unfold _discard_recording.
  destruct too_short; [|destruct (write w1) as [|[partial|]]];
    cbn [fst snd current_audio_file set_files set_audio_buffer set_recording
         set_delivered]; rewrite ?K3;
    destruct (remove_ok w1); destruct (callback_set v); simpl;
    rewrite ?K5, ?K6, ?K7, ?K10;
    do 4 (split; [done|]);
    (split; [intros j Hj; rewrite ?Hdel, ?Hins by done; done|]);
    (split; [intros Hs Hw; done|]);
    intros Hcase;
    try (destruct Hcase as [?|Hw]; [done|by destruct Hw]);
    (split; [done|]); split; intros; try done; by rewrite ?delete_insert_eq.
Qed.

(** X20.  When the recording ends by silence, is long enough and the write
    of its file fails, the recording is discarded and the step raises: the
    detector is idle with an empty capture buffer and no current file, the
    callback is not called, no other file is touched, and the recording
    loop ends there without reading the frames that follow.  No file is
    left under the name when its removal goes through; when it does not,
    what the failed write left stays. *)
Theorem failed_write_ends_loop (v : VAD) (now t0 : Q) (f : string) (c : Chunk)
    (residue : option (list Chunk)) (removes : bool)
    (rest : list (Q * Disk * Chunk)) :
  is_recording v = true →
  recording_start_time v = Some t0 →
  current_audio_file v = Some f →
  is_speech c = false →
  (silence_chunks v <= length (deque_append (silence_chunks v) (voice_buffer v) c))%nat →
  Qlt_bool ((now - t0) * 1000) (inject_Z (min_recording_duration_ms v)) = false →
  let disk := mkDisk (WriteFailed residue) removes in
  let r := _process_audio_chunk is_speech v now disk c in
  r.2 = true
  ∧ is_recording r.1 = false ∧ current_audio_file r.1 = None ∧ audio_buffer r.1 = []
  ∧ delivered r.1 = delivered v
  ∧ (∀ j, j ≠ f → files r.1 !! j = files v !! j)
  ∧ (removes = true → files r.1 !! f = None)
  ∧ (removes = false →
       files r.1 !! f = match residue with
                        | Some partial => Some partial
                        | None => files v !! f
                        end)
  ∧ _recording_loop is_speech v ((now, disk, c) :: rest) = r.1.
Proof.
  intros Hr Ht Hf Hc Hfull Hlong disk r.
  assert (r = (_discard_recording
                 match residue with
                 | Some partial =>
                     set_files (<[f := partial]> (files v))
                       (set_audio_buffer (audio_buffer v ++ [c])
                          (set_voice_buffer
                             (deque_append (silence_chunks v) (voice_buffer v) c) v))
                 | None =>
                     set_audio_buffer (audio_buffer v ++ [c])
                       (set_voice_buffer
                          (deque_append (silence_chunks v) (voice_buffer v) c) v)
                 end removes, true))
    as Hres.
  { subst r. unfold _process_audio_chunk. rewrite Hc, Hr. simpl.
    apply Nat.leb_le in Hfull. rewrite Hfull.
    erewrite stop_recording_cases; [|done|exact Ht|exact Hf|].
    - simpl. rewrite Hlong. by destruct residue.
    - simpl. by destruct (audio_buffer v). }
  simpl _recording_loop. fold r. rewrite Hres. simpl.
  unfold _discard_recording.
  destruct residue as [partial|]; simpl; rewrite Hf; destruct removes; simpl;
    (repeat split; try done);
    try (intros j Hj; rewrite ?lookup_delete_ne, ?lookup_insert_ne by done; done);
    try (intros _; by rewrite ?lookup_delete_eq, ?lookup_insert_eq).
Qed.

End VadFrames.

Section VadFramesExamples.
Import Vad VadScenario.

Lemma silence_never_starts_recording_witness :
  is_recording vad_new = false
  ∧ is_recording (_recording_loop energy vad_new
       [(1%Q, disk_ok, quiet); (2%Q, disk_ok, quiet); (3%Q, disk_ok, quiet)]) = false
  ∧ files (_recording_loop energy vad_new
       [(1%Q, disk_ok, quiet); (2%Q, disk_ok, quiet); (3%Q, disk_ok, quiet)]) = files vad_new.
Proof.
  split; [reflexivity|].
  destruct (silence_never_starts_recording energy vad_new
              [(1%Q, disk_ok, quiet); (2%Q, disk_ok, quiet); (3%Q, disk_ok, quiet)] eq_refl)
    as (_ & H2 & _ & H4 & _).
  - simpl. lia.
  - repeat constructor.
  - exact (conj H2 H4).
Defined.

Lemma utterance_capture_witness :
  is_recording vad_new = false
  ∧ S (length [((103 # 100)%Q, disk_ok, quiet)]) = silence_chunks vad_new
  ∧ is_recording (_recording_loop energy vad_new
       ((1%Q, disk_ok, loud) :: [] ++ [((103 # 100)%Q, disk_ok, quiet)]
          ++ [((106 # 100)%Q, disk_ok, quiet)])) = false
  ∧ files (_recording_loop energy vad_new
       ((1%Q, disk_ok, loud) :: [] ++ [((103 # 100)%Q, disk_ok, quiet)]
          ++ [((106 # 100)%Q, disk_ok, quiet)]))
    = <["./data/temp/audio_0001.wav"%string := [loud; quiet; quiet]]> ∅.
Proof.
  split; [reflexivity|]. split; [reflexivity|].
  destruct (utterance_capture energy vad_new 1 (106 # 100) disk_ok disk_ok loud quiet
              [] [((103 # 100)%Q, disk_ok, quiet)] eq_refl eq_refl)
    as (H1 & _ & _ & _ & _ & H6 & _).
  - constructor.
  - repeat constructor.
  - reflexivity.
  - reflexivity.
  - split; [exact H1|]. exact (proj1 (H6 eq_refl eq_refl)).
Defined.

Lemma failed_write_ends_loop_witness :
  is_recording vad_trailing = true
  ∧ recording_start_time vad_trailing = Some 1%Q
  ∧ (_process_audio_chunk energy vad_trailing (106 # 100)
       (mkDisk (WriteFailed (Some [loud])) true) quiet).2 = true
  ∧ files (_process_audio_chunk energy vad_trailing (106 # 100)
             (mkDisk (WriteFailed (Some [loud])) true) quiet).1
      !! "./data/temp/audio_0001.wav" = None.
Proof.
  split; [reflexivity|]. split; [reflexivity|].
  destruct (failed_write_ends_loop energy vad_trailing (106 # 100) 1
              "./data/temp/audio_0001.wav" quiet (Some [loud]) true []
              eq_refl eq_refl eq_refl eq_refl)
    as (H1 & _ & _ & _ & _ & _ & H7 & _).
  - vm_compute. lia.
  - vm_compute. reflexivity.
  - exact (conj H1 (H7 eq_refl)).
Defined.

End VadFramesExamples.

(** ** The transcriber and the orchestrator *)

Section TranscriberProperties.
Import Transcribe.

Variable strip : string → string.

(** X21.  When [_init_whisper] returns, the backend in use is one of the
    three supported ones: the configured one, or [pywhispercpp] as the
    fallback.  A model is loaded unless [pywhispercpp] was configured and
    failed to load, in which case the failure is swallowed.  It raises only
    when another backend was configured, it is unsupported or failed, and
    the fallback failed too. *)
Theorem init_whisper_backend (backend : string) (loads : string → bool) :
  match _init_whisper backend loads with
  | Some (b, m) =>
      is_backend b = true
      ∧ (b = backend ∨ b = "pywhispercpp"%string)
      ∧ (m = true → loads b = true)
      ∧ (m = false → backend = "pywhispercpp"%string ∧ loads backend = false)
  | None =>
      backend ≠ "pywhispercpp"%string ∧ loads "pywhispercpp" = false
      ∧ (is_backend backend = false ∨ loads backend = false)
  end.
Proof.
  unfold _init_whisper.
  destruct (is_backend backend) eqn:Hb; simpl.
  - destruct (loads backend) eqn:Hl; simpl.
    + repeat split; auto; done.
    + destruct (String.eqb_spec backend "pywhispercpp") as [->|Hne]; simpl.
      * repeat split; auto; done.
      * destruct (loads "pywhispercpp") eqn:Hp; [|by auto].
        repeat split; auto; done.
  - destruct (String.eqb_spec backend "pywhispercpp") as [->|Hne]; [done|]. simpl.
    destruct (loads "pywhispercpp") eqn:Hp; [|by auto].
    repeat split; auto; done.
Qed.

Lemma cleanup_audio_file_delete (audio : gmap string (list Vad.Chunk)) (ok : bool)
    (path : string) :
  _cleanup_audio_file audio ok path = if ok then delete path audio else audio.
Proof.
  unfold _cleanup_audio_file. destruct (audio !! path) eqn:Hp; [done|].
  destruct ok; [|done]. symmetry. by apply delete_id.
Qed.

(** X22.  On every path of [transcribe_audio] (record returned, empty
    text, missing file, unknown backend or exception) the audio files
    afterwards are those before without the transcribed one when its
    removal goes through, and exactly those before when it does not; no
    other audio file is touched. *)
Theorem transcribe_audio_removes_audio (t : Transcriber)
    (audio : gmap string (list Vad.Chunk)) (env : Env) (path : string) :
  let r := transcribe_audio strip t audio env path in
  r.2 = (if remove_ok env then delete path audio else audio)
  ∧ (remove_ok env = true → r.2 !! path = None)
  ∧ (∀ p, p ≠ path → r.2 !! p = audio !! p)
  ∧ whisper_backend r.1.2 = whisper_backend t
  ∧ output_dir r.1.2 = output_dir t.
Proof.
  intros r.
  assert (r.2 = _cleanup_audio_file audio (remove_ok env) path
          ∧ whisper_backend r.1.2 = whisper_backend t
          ∧ output_dir r.1.2 = output_dir t) as (Hr & Hb & Hd).
  { subst r. unfold transcribe_audio.
    destruct (audio !! path); [|done].
    destruct (negb _); [done|].
    destruct (if model_loaded t then backend_text env else None) as [text|]; [|done].
    destruct (_ || _); [done|].
    unfold _save_transcript, _save_counter.
    destruct (write_ok env); [|done]. by destruct (counter_ok env). }
  rewrite Hr, cleanup_audio_file_delete. repeat split; try done.
  - intros ->. apply lookup_delete_eq.
  - intros p Hp. destruct (remove_ok env); [|done]. by rewrite lookup_delete_ne.
Qed.

Lemma append_cancel_l (p a b : string) : p +:+ a = p +:+ b → a = b.
Proof. induction p as [|c p IH]; simpl; [done|]. intros [= H]. by apply IH. Qed.

Lemma path_join_inj (dir a b : string) : path_join dir a = path_join dir b → a = b.
Proof.
  unfold path_join. destruct (String.eqb dir "."); [done|].
  destruct (String.eqb dir "/").
  - apply (append_cancel_l "/").
  - intros H. apply append_cancel_l in H. by apply (append_cancel_l "/") in H.
Qed.

Lemma txt_not_counter (s : string) : s +:+ ".txt" ≠ ".counter"%string.
Proof.
  destruct s as [|a [|b [|c [|d [|e [|f [|g [|h [|i s]]]]]]]]];
    intros Heq; cbv [String.app String.append] in Heq; discriminate Heq.
Qed.

(** What each result of [transcribe_audio] tells. *)
(** What [_save_transcript] leaves behind when its write goes through. *)
Lemma save_transcript_written (t : Transcriber) (env : Env) (text : string) :
  write_ok env = true →
  let r := _save_transcript t env text in
  let name := format_04d (transcript_counter t + 1) +:+ ".txt" in
  r.1 = Some (path_join (output_dir t) name)
  ∧ transcript_counter r.2 = (transcript_counter t + 1)%Z
  ∧ read_transcript r.2 name = Some (ts_file env +:+ newline +:+ text +:+ newline)
  ∧ (counter_ok env = true →
       texts r.2 !! counter_file t = Some (pretty (transcript_counter t + 1)%Z))
  ∧ (counter_ok env = false → texts r.2 !! counter_file t = texts t !! counter_file t).
Proof.
  intros Hw r name. subst r. unfold _save_transcript. fold name. rewrite Hw.
  unfold read_transcript, _save_counter, counter_file.
  destruct (counter_ok env) eqn:Hc; simpl.
  - repeat split; try done.
    + rewrite lookup_insert_ne, lookup_insert_eq; [done|].
      intros H. apply path_join_inj in H. symmetry in H. by apply txt_not_counter in H.
    + intros _. by rewrite lookup_insert_eq.
  - repeat split; try done.
    + by rewrite lookup_insert_eq.
    + intros _. rewrite lookup_insert_ne; [done|].
      intros H. apply path_join_inj in H. by apply txt_not_counter in H.
Qed.

(** A record is returned only after a transcript was saved. *)
Lemma transcribe_audio_returned (t : Transcriber) (audio : gmap string (list Vad.Chunk))
    (env : Env) (path : string) (rec : TranscriptRecord) :
  (transcribe_audio strip t audio env path).1.1 = Returned (Some rec) →
  ∃ text, backend_text env = Some text ∧ strip text ≠ ""%string
    ∧ is_Some (audio !! path) ∧ write_ok env = true
    ∧ rec_text rec = strip text
    ∧ Some (rec_file rec) = (_save_transcript t env (strip text)).1
    ∧ rec_timestamp rec = ts_record env
    ∧ rec_backend rec = whisper_backend t
    ∧ (transcribe_audio strip t audio env path).1.2
      = (_save_transcript t env (strip text)).2.
Proof.
  unfold transcribe_audio.
  destruct (audio !! path) as [wav|] eqn:Haudio; simpl; [|done].
  destruct (negb _); simpl; [done|].
  destruct (model_loaded t); simpl; [|done].
  destruct (backend_text env) as [text|] eqn:Htext; simpl; [|done].
  destruct (String.eqb_spec text ""); simpl; [done|].
  destruct (String.eqb_spec (strip text) "") as [|Hne]; simpl; [done|].
  destruct (_save_transcript t env (strip text)) as [[file|] t'] eqn:Hs; simpl; [|done].
  intros [= <-]. exists text. simpl. repeat split; try done.
  - unfold _save_transcript in Hs. by destruct (write_ok env).
  - by rewrite Hs.
  - by rewrite Hs.
Qed.


End TranscriberProperties.

Section CounterProperties.
Import Transcribe.

Variable strip : string → string.
Variable int : string → option Z.

(** X25.  The counter survives a restart: after [transcribe_audio] has
    returned a record and written the counter file, a transcriber started
    over the same [output_dir] begins with the counter of the one that
    wrote it, provided [int] reads back what [str] wrote, and it finds the
    files as they were left. *)
Theorem counter_survives_restart (t : Transcriber) (audio : gmap string (list Vad.Chunk))
    (env : Env) (path : string) (rec : TranscriptRecord) (backend : string)
    (loads : string → bool) (t2 : Transcriber) :
  (transcribe_audio strip t audio env path).1.1 = Returned (Some rec) →
  counter_ok env = true →
  int (strip (pretty (transcript_counter t + 1)%Z)) = Some (transcript_counter t + 1)%Z →
  __init__ strip int backend (output_dir t) loads
    (texts (transcribe_audio strip t audio env path).1.2) = Some t2 →
  transcript_counter t2 = transcript_counter (transcribe_audio strip t audio env path).1.2
  ∧ transcript_counter t2 = (transcript_counter t + 1)%Z
  ∧ texts t2 = texts (transcribe_audio strip t audio env path).1.2
  ∧ output_dir t2 = output_dir t.
Proof.
  intros Hres Hc Hint Hinit.
  destruct (transcribe_audio_returned strip t audio env path rec Hres)
    as (text & _ & _ & _ & Hw & _ & _ & _ & _ & Ht).
  destruct (save_transcript_written t env (strip text) Hw) as (_ & Hn & _ & Hcnt & _).
  specialize (Hcnt Hc). rewrite Ht in Hinit |- *. rewrite Hn.
  unfold __init__, _load_counter in Hinit.
  unfold counter_file in Hinit, Hcnt. simpl in Hinit. rewrite Hcnt, Hint in Hinit.
  simpl in Hinit.
  destruct (_init_whisper backend loads) as [[b m]|]; [|done].
  by injection Hinit as <-.
Qed.

End CounterProperties.

Section CounterExamples.
Import Transcribe TranscribeScenario.

Lemma counter_survives_restart_witness :
  counter_ok spoken = true
  ∧ __init__ keep read_one "openai" "data/transcripts" (λ _, true)
      (texts (transcribe_audio keep fresh heard spoken "a.wav").1.2) = Some restarted
  ∧ transcript_counter restarted = 1%Z.
Proof.
  assert (__init__ keep read_one "openai" "data/transcripts" (λ _, true)
            (texts (transcribe_audio keep fresh heard spoken "a.wav").1.2) = Some restarted)
    as H by (vm_compute; reflexivity).
  split; [reflexivity|]. split; [exact H|].
  refine (proj1 (proj2 (counter_survives_restart keep read_one fresh heard spoken "a.wav"
                   {| rec_text := "hello"; rec_file := "data/transcripts/0001.txt";
                      rec_timestamp := "t2"; rec_duration := 1; rec_backend := "openai" |}
                   "openai" (λ _, true) restarted _ eq_refl _ H))).
  - vm_compute. reflexivity.
  - vm_compute. reflexivity.
Defined.

End CounterExamples.

Section OrchestratorProperties.
Import Queue Transcribe Main.

Variable strip : string → string.

(** X24.  [_process_audio] does one of three things.  It counts a
    transcription, and then the queue has one new row under the new id,
    pending and without attempts, whose text is the stripped text of the
    backend (not empty) and whose transcript is on disk.  Or it counts an
    error and leaves the queue as it is.  Or, on an empty text, it counts
    nothing and leaves the queue as it is.  In each case the audio file is
    removed when its removal goes through. *)
Theorem process_audio_queues_transcript (app : WhisperTranscriber)
    (audio : gmap string (list Vad.Chunk)) (env : Env) (now : Q) (new_id : string)
    (audio_file : string) :
  let r := _process_audio strip app audio env now new_id audio_file in
  let app' := r.1 in
  r.2 = (if remove_ok env then delete audio_file audio else audio)
  ∧ (transcriptions app' = transcriptions app ∧ errors app' = errors app
     ∧ Main.queue app' = Main.queue app
     ∨ transcriptions app' = transcriptions app ∧ errors app' = S (errors app)
       ∧ Main.queue app' = Main.queue app
     ∨ transcriptions app' = S (transcriptions app) ∧ errors app' = errors app
       ∧ table (Main.queue app) !! new_id = None
       ∧ ∃ it raw,
           table (Main.queue app') !! new_id = Some it
           ∧ (∀ j, j ≠ new_id →
                table (Main.queue app') !! j = table (Main.queue app) !! j)
           ∧ backend_text env = Some raw
           ∧ text it = strip raw ∧ text it ≠ ""%string
           ∧ status it = pending ∧ attempts it = 0%Z ∧ created_at it = now
           ∧ transcript_timestamp it = ts_record env
           ∧ read_transcript (transcriber app')
               (format_04d (transcript_counter (transcriber app) + 1) +:+ ".txt")
             = Some (ts_file env +:+ newline +:+ text it +:+ newline)).
Proof.
  intros r app'. subst app' r. unfold _process_audio.
  pose proof (cleanup_audio_file_delete audio (remove_ok env) audio_file) as Hclean.
  assert ((transcribe_audio strip (transcriber app) audio env audio_file).2
          = _cleanup_audio_file audio (remove_ok env) audio_file) as Haud.
  { unfold transcribe_audio.
    destruct (audio !! audio_file); [|done].
    destruct (negb _); [done|].
    destruct (if model_loaded _ then backend_text env else None) as [text|]; [|done].
    destruct (_ || _); [done|].
    unfold _save_transcript. by destruct (write_ok env). }
  destruct (transcribe_audio strip (transcriber app) audio env audio_file)
    as [[res t'] audio'] eqn:Hres.
  simpl in Haud. subst audio'. rewrite Hclean.
  destruct res as [[rec|]|]; simpl.
  - pose proof (transcribe_audio_returned strip (transcriber app) audio env audio_file rec)
      as Hc.
    rewrite Hres in Hc. simpl in Hc.
    destruct (Hc eq_refl) as (raw & Hraw & Hne & _ & Hw & Htext & _ & Hts & _ & Ht').
    destruct (save_transcript_written (transcriber app) env (strip raw) Hw)
      as (_ & _ & Hread & _).
    rewrite <- Ht' in Hread.
    unfold add_transcript, connect.
    destruct (db_raises (Main.queue app)) eqn:Hr; simpl;
      [split; [done|]; right; left; done|].
    destruct (table (Main.queue app) !! new_id) as [old|] eqn:Hold; simpl;
      [split; [done|]; right; left; done|].
    split; [done|]. right; right. repeat split; try done.
    eexists _, raw. rewrite lookup_insert_eq. split; [reflexivity|]. simpl.
    rewrite Htext, Hts. repeat split; try done.
    intros j Hj. by rewrite lookup_insert_ne.
  - split; [done|]. left. done.
  - split; [done|]. right; left. done.
Qed.

End OrchestratorProperties.
